(** * Sonnet: the Variable entity (src/SonnetCpp/Variable.h)

    A shallow embedding of [class Variable : ModelEntity] and of the
    protocol by which a variable pushes changes of its declared state to
    the solvers it is registered with.

    - [double] is the IEEE binary64 type, Rocq's primitive [float].
    - [int] fields are [Z] with the 32-bit two's complement wrap-around
      written out ([int_wrap]).
    - A method is a computation in a small state-and-exception monad over
      the object ([self]) and the sequence of calls made on solvers
      ([calls]); what a method wrote before it threw stays written.
    - Utils.h and ModelEntity.h are not part of the sources at hand: the
      helpers of Utils.h are the fields of the class [Utils], and the base
      class is the record [ModelEntity]. *)

From Stdlib Require Import PrimFloat.
From stdpp Require Import gmap strings list pretty.

Local Open Scope Z_scope.

(** ** Primitive types *)

Definition double := float.

Definition INT_MAX : Z := 2147483647.
Definition INT_MIN : Z := -2147483648.

(** The value an [int] holds after an arithmetic result [z]. *)
Definition int_wrap (z : Z) : Z := (z - INT_MIN) mod 4294967296 + INT_MIN.

(** Modelled from the spec: [string_format] (Utils.h) is missing. The spec
    gives the names it builds as "Var_" + id and "<base>_<index>"; the
    conversion [%i] is the decimal numeral of an [int]. *)
Definition format_int (i : Z) : string := pretty i.

(** ** Utils.h *)

(** The helpers the class takes from Utils.h, which is not among the
    sources: the tolerance comparisons on [double] and the value used as
    infinity. Nothing is assumed about them. *)
Class Utils := {
  getInfinity : double;
  CompareToEps : double -> double -> Z;
  IsBetween : double -> double -> double -> bool;
  IsInteger : double -> bool
}.

(** ** Data model *)

Inductive VariableType := Continuous | Integer.

#[global] Instance VariableType_eq_dec : EqDecision VariableType.
Proof. solve_decision. Defined.

(** A reference to a solver instance. *)
Definition Solver := nat.

(** Modelled from the spec: ModelEntity.h is missing. The base of a
    variable holds its name, the solvers it is attached to (its notification
    targets) and the solver/offset pair recorded by the base [Assign], if
    any; [Assigned] tells whether a pair has been recorded. *)
Record ModelEntity := mkModelEntity {
  Name : string;
  solvers : list Solver;
  assignedSolver : option (Solver * Z)
}.

(** Modelled from the spec: the constructors [ModelEntity()] and
    [ModelEntity(name)] are missing. A new entity is attached to no solver
    and has no assignment. *)
Definition ModelEntity_new (name : string) : ModelEntity :=
  mkModelEntity name [] None.

(** Modelled from the spec: [Assigned] is missing. It holds once a solver
    has assigned the entity. *)
Definition Assigned (e : ModelEntity) : bool :=
  match assignedSolver e with Some _ => true | None => false end.

(** Modelled from the spec: the base [Assign(solver, offset)] is missing.
    It records which solver/offset pair the entity maps to. *)
Definition ModelEntity_Assign (solver : Solver) (offset : Z) (e : ModelEntity)
  : ModelEntity :=
  mkModelEntity (Name e) (solvers e) (Some (solver, offset)).

(** Modelled from the spec: the base [setName] and the setter of the base
    [Name] are missing. They store the name. *)
Definition ModelEntity_setName (name : string) (e : ModelEntity) : ModelEntity :=
  mkModelEntity name (solvers e) (assignedSolver e).

(** The class [Variable] ([Variable] is a reserved word here). *)
Record SonnetVariable := mkVariable {
  base : ModelEntity;
  id : Z;
  frozen : Z;
  value : double;
  reducedCost : double;
  upper : double;
  lower : double;
  type : VariableType
}.

Definition with_base (b : ModelEntity) (x : SonnetVariable) : SonnetVariable :=
  mkVariable b (id x) (frozen x) (value x) (reducedCost x) (upper x) (lower x) (type x).
Definition with_frozen (n : Z) (x : SonnetVariable) : SonnetVariable :=
  mkVariable (base x) (id x) n (value x) (reducedCost x) (upper x) (lower x) (type x).
Definition with_value (d : double) (x : SonnetVariable) : SonnetVariable :=
  mkVariable (base x) (id x) (frozen x) d (reducedCost x) (upper x) (lower x) (type x).
Definition with_reducedCost (d : double) (x : SonnetVariable) : SonnetVariable :=
  mkVariable (base x) (id x) (frozen x) (value x) d (upper x) (lower x) (type x).
Definition with_upper (d : double) (x : SonnetVariable) : SonnetVariable :=
  mkVariable (base x) (id x) (frozen x) (value x) (reducedCost x) d (lower x) (type x).
Definition with_lower (d : double) (x : SonnetVariable) : SonnetVariable :=
  mkVariable (base x) (id x) (frozen x) (value x) (reducedCost x) (upper x) d (type x).
Definition with_type (t : VariableType) (x : SonnetVariable) : SonnetVariable :=
  mkVariable (base x) (id x) (frozen x) (value x) (reducedCost x) (upper x) (lower x) t.
Definition with_name (n : string) (x : SonnetVariable) : SonnetVariable :=
  with_base (ModelEntity_setName n (base x)) x.

(** ** The Solver interface, as seen from a variable *)

(** The calls a variable makes on a solver. The first argument of each is
    [this], given here by the variable's id. *)
Inductive Notification :=
| SetVariableUpper (this : Z) (value : double)
| SetVariableLower (this : Z) (value : double)
| SetVariableBounds (this : Z) (lower upper : double)
| SetVariableType (this : Z) (type : VariableType)
| SetVariableName (this : Z) (name : string).

(** One call: the solver it is made on, and what is called. *)
Definition Call : Type := Solver * Notification.

(** [foreach(Solver solver in ss) solver.n]: one call per element, in order. *)
Definition broadcast (ss : list Solver) (n : Notification) : list Call :=
  map (fun solver => (solver, n)) ss.

(** The notifications one solver received in a sequence of calls. *)
Definition received (s : Solver) (cs : list Call) : list Notification :=
  map snd (filter (fun c => fst c = s) cs).

(** ** Methods as computations *)

Inductive Exception :=
| SonnetException (msg : string)
| ArgumentException (msg : string)
| bad_array_new_length.

Record Object := mkObject {
  self : SonnetVariable;
  calls : list Call
}.

Definition Result (A : Type) : Type := Exception + A.

Definition M (S A : Type) : Type := S -> Result A * S.

Definition ret {S A} (a : A) : M S A := fun s => (inr a, s).
Definition throw {S A} (e : Exception) : M S A := fun s => (inl e, s).
Definition bind {S A B} (m : M S A) (k : A -> M S B) : M S B :=
  fun s => match m s with
           | (inr a, s') => k a s'
           | (inl e, s') => (inl e, s')
           end.

#[global] Instance M_ret {S} : MRet (M S) := fun A => @ret S A.
#[global] Instance M_bind {S} : MBind (M S) := fun A B k m => @bind S A B m k.
#[global] Instance M_fmap {S} : FMap (M S) :=
  fun A B f m => bind m (fun a => ret (f a)).

Abbreviation Method := (M Object).

Definition read {A} (f : SonnetVariable -> A) : Method A :=
  fun o => (inr (f (self o)), o).
Definition write (f : SonnetVariable -> SonnetVariable) : Method unit :=
  fun o => (inr tt, mkObject (f (self o)) (calls o)).
(** [foreach(Solver solver in solvers) solver.n(this, ...)], the arguments
    being read from the object as it is when the loop runs. *)
Definition foreach_solver (n : SonnetVariable -> Notification) : Method unit :=
  fun o => (inr tt,
            mkObject (self o)
                     (calls o ++ broadcast (solvers (base (self o))) (n (self o)))).

Section Variable_methods.

Context {U : Utils}.

(** The compile-time symbol of [#if (DEBUG)]. *)
Variable DEBUG : bool.

Definition getUpper : Method double := read upper.

Definition setUpper (value : double) : Method unit :=
  cur ← read upper;
  if negb (CompareToEps cur value =? 0) then
    write (with_upper value) ;;
    foreach_solver (fun this => SetVariableUpper (id this) (upper this))
  else ret tt.

Definition Lower_get : Method double := read lower.

Definition Lower_set (value : double) : Method unit :=
  cur ← read lower;
  if negb (CompareToEps cur value =? 0) then
    write (with_lower value) ;;
    foreach_solver (fun this => SetVariableLower (id this) (lower this))
  else ret tt.

Definition Type_get : Method VariableType := read type.

Definition Type_set (value : VariableType) : Method unit :=
  cur ← read type;
  if negb (bool_decide (cur = value)) then
    write (with_type value) ;;
    foreach_solver (fun this => SetVariableType (id this) (type this))
  else ret tt.

Definition Name_get : Method string := read (fun x => Name (base x)).

Definition Name_set (value : string) : Method unit :=
  cur ← Name_get;
  if negb (String.eqb cur value) then
    write (with_name value) ;;
    foreach_solver (fun this => SetVariableName (id this) (Name (base this)))
  else ret tt.

Definition IsFrozen : Method bool := read (fun x => 0 <? frozen x).

Definition Value_get : Method double :=
  assigned ← read (fun x => Assigned (base x));
  if DEBUG && negb assigned
  then throw (SonnetException "Variable has no assigned model!")
  else read value.

Definition Value_set (value : double) : Method unit :=
  write (with_value value).

Definition ReducedCost_get : Method double := read reducedCost.

Definition Freeze : Method bool :=
  write (fun x => with_frozen (int_wrap (frozen x + 1)) x) ;;
  n ← read frozen;
  if n =? 1 then
    value ← Value_get;
    foreach_solver (fun this => SetVariableBounds (id this) value value) ;;
    ret true
  else ret false.

Definition UnFreeze : Method bool :=
  n ← read frozen;
  if 0 <? n then
    write (fun x => with_frozen (int_wrap (frozen x - 1)) x) ;;
    n' ← read frozen;
    if n' =? 0 then
      foreach_solver (fun this => SetVariableBounds (id this) (lower this) (upper this)) ;;
      ret true
    else ret false
  else ret false.

Definition IsFeasible : Method bool :=
  v ← read value; lo ← read lower; up ← read upper;
  if negb (IsBetween v lo up) then ret false
  else
    t ← read type;
    if bool_decide (t = Integer) && negb (IsInteger v) then ret false
    else ret true.

Definition Assign (solver : Solver) (offset : Z) (value reducedCost : double)
  : Method unit :=
  write (fun x => with_base (ModelEntity_Assign solver offset (base x)) x) ;;
  write (with_value value) ;;
  write (with_reducedCost reducedCost).

End Variable_methods.

(** ** Construction *)

(** The state of a construction is the static [numberOfVariables]. *)
Definition numberOfVariables_initial : Z := 0.

Abbreviation Static := (M Z).

(** [string_format("Var_%i", id)] and [string_format("%s_%i", varname, i)]. *)
Definition default_name (id : Z) : string := "Var_" +:+ format_int id.
Definition indexed_name (varname : string) (i : Z) : string :=
  varname +:+ "_" +:+ format_int i.

Definition with_id (n : Z) (x : SonnetVariable) : SonnetVariable :=
  mkVariable (base x) n (frozen x) (value x) (reducedCost x) (upper x) (lower x) (type x).

Definition is_empty (s : string) : bool := String.eqb s "".

(** [this] is the object after the base constructor has run. The fields
    [value] and [reducedCost] are not written: they keep what the storage
    held. [setName] is the base class's. *)
Definition GutsOfConstructor (name : string) (lower upper : double)
    (type : VariableType) (this : SonnetVariable) : Static SonnetVariable :=
  fun numberOfVariables =>
    let this := with_lower lower this in
    let this := with_upper upper this in
    let this := with_type type this in
    let this := with_frozen 0 this in
    let this := with_id numberOfVariables this in
    let numberOfVariables := int_wrap (numberOfVariables + 1) in
    let this :=
      if negb (is_empty name) then with_name name this
      else with_name (default_name (id this)) this in
    (inr this, numberOfVariables).

Section Variable_construction.

Context {U : Utils}.

(** The storage of the object under construction. *)
Variable raw : SonnetVariable.

Definition Variable_type (type : VariableType) : Static SonnetVariable :=
  GutsOfConstructor "" 0%float getInfinity type
    (with_base (ModelEntity_new "") raw).

Definition Variable_bounds (lower upper : double) (type : VariableType)
  : Static SonnetVariable :=
  GutsOfConstructor "" lower upper type (with_base (ModelEntity_new "") raw).

Definition Variable_name_type (name : string) (type : VariableType)
  : Static SonnetVariable :=
  GutsOfConstructor name 0%float getInfinity type
    (with_base (ModelEntity_new name) raw).

Definition Variable_name_bounds (name : string) (lower upper : double)
    (type : VariableType) : Static SonnetVariable :=
  GutsOfConstructor name lower upper type (with_base (ModelEntity_new name) raw).

End Variable_construction.

(** A call of one of the four public constructors, with its arguments. *)
Inductive Construction :=
| ByType (type : VariableType)
| ByBounds (lower upper : double) (type : VariableType)
| ByNameType (name : string) (type : VariableType)
| ByNameBounds (name : string) (lower upper : double) (type : VariableType).

Definition construct `{Utils} (raw : SonnetVariable) (c : Construction)
  : Static SonnetVariable :=
  match c with
  | ByType t => Variable_type raw t
  | ByBounds lo up t => Variable_bounds raw lo up t
  | ByNameType n t => Variable_name_type raw n t
  | ByNameBounds n lo up t => Variable_name_bounds raw n lo up t
  end.

(** The name a construction supplies ([""] when it supplies none). *)
Definition supplied_name (c : Construction) : string :=
  match c with
  | ByType _ | ByBounds _ _ _ => ""
  | ByNameType n _ | ByNameBounds n _ _ _ => n
  end.

(** A sequence of constructions, each on its own storage, in order. *)
Fixpoint construct_all `{Utils} (cs : list (SonnetVariable * Construction))
  : Static (list SonnetVariable) :=
  match cs with
  | [] => mret []
  | (raw, c) :: cs =>
      x ← construct raw c;
      xs ← construct_all cs;
      mret (x :: xs)
  end.

(** ** The factories *)

Section Variable_New.

Context {U : Utils}.

(** The storage [new Variable] obtains in the iteration with index [i]. *)
Variable storage : Z -> SonnetVariable.

(** The loop [for (int i = ...; i < n; i++)] of [New(int n, ...)], with
    [k] iterations left; [tmp] is filled in index order. *)
Fixpoint New_loop (k : nat) (i : Z) (varname : string) (lower upper : double)
    (type : VariableType) : Static (list SonnetVariable) :=
  match k with
  | O => mret []
  | S k =>
      let name := if negb (is_empty varname) then indexed_name varname i else "" in
      x ← Variable_name_bounds (storage i) name lower upper type;
      xs ← New_loop k (int_wrap (i + 1)) varname lower upper type;
      mret (x :: xs)
  end.

(** [new Variable*[n]] throws for a negative [n]. *)
Definition New (n : Z) (varname : string) (lower upper : double)
    (type : VariableType) : Static (list SonnetVariable) :=
  if n <? 0 then throw bad_array_new_length
  else New_loop (Z.to_nat n) 0 varname lower upper type.

Section keyed.

Context {T : Type} `{Countable T}.

(** The overload [New(const list<T>& set, ...)] has no embedding here: its
    loop compares iterators of a [list] with [<] and subscripts the pointer
    [tmp], so the template has no instance whose behaviour could be given. *)

(** What the enum overload takes from [T]: [typeof(T).IsEnum],
    [Enum.GetValues(typeof(T))] and the integer of an enum value. *)
Variable IsEnum : bool.
Variable GetValues : list T.
Variable enum_int : T -> Z.

Fixpoint New_enum_loop (pos : nat) (rest : list T) (varname : string)
    (lower upper : double) (type : VariableType) (tmp : gmap T SonnetVariable)
  : Static (gmap T SonnetVariable) :=
  match rest with
  | [] => mret tmp
  | i :: rest =>
      let name :=
        if negb (is_empty varname) then indexed_name varname (enum_int i) else "" in
      x ← Variable_name_bounds (storage (Z.of_nat pos)) name lower upper type;
      New_enum_loop (S pos) rest varname lower upper type (<[i := x]> tmp)
  end.

Definition New_enum (varname : string) (lower upper : double)
    (type : VariableType) : Static (gmap T SonnetVariable) :=
  if negb IsEnum then throw (ArgumentException "T must be an enumerated type")
  else New_enum_loop 0 GetValues varname lower upper type ∅.

End keyed.

End Variable_New.

(** ** Relational operators *)

(** Expression and Constraint are defined elsewhere; the operators of
    Variable.h use the single-term expression of a variable and the
    equality operators of Expression. *)
Class ExpressionAlgebra (Expression Constraint : Type) := {
  new_Expression : SonnetVariable -> Expression;
  Expression_eq_left : double -> Expression -> Constraint;
  Expression_eq_right : Expression -> double -> Constraint;
  Expression_eq : Expression -> Expression -> Constraint
}.

Section Operators.

Context {Expression Constraint : Type} `{ExpressionAlgebra Expression Constraint}.

(** [operator ==(double c, Variable x)] *)
Definition eq_double_Variable (c : double) (x : SonnetVariable) : Result Constraint :=
  inr (Expression_eq_left c (new_Expression x)).

(** [operator !=(double c, Variable x)] *)
Definition ne_double_Variable (c : double) (x : SonnetVariable) : Result Constraint :=
  inl (SonnetException "Cannot use != operator").

(** [operator ==(Variable x, double c)] *)
Definition eq_Variable_double (x : SonnetVariable) (c : double) : Result Constraint :=
  inr (Expression_eq_right (new_Expression x) c).

(** [operator !=(Variable x, double c)] *)
Definition ne_Variable_double (x : SonnetVariable) (c : double) : Result Constraint :=
  inl (SonnetException "Cannot use != operator").

(** [operator ==(Variable x, Variable y)] *)
Definition eq_Variable_Variable (x y : SonnetVariable) : Result Constraint :=
  inr (Expression_eq (new_Expression x) (new_Expression y)).

(** [operator !=(Variable x, Variable y)] *)
Definition ne_Variable_Variable (x y : SonnetVariable) : Result Constraint :=
  inl (SonnetException "Cannot use != operator").

End Operators.

(** ** The members of a variable, as requests *)

(** The member functions and property accessors that read or write an
    existing variable. [ToString] and [ToLevelString] only format its fields,
    and the operators only wrap it in an expression; they are left out. *)
Inductive Operation :=
| Call_getUpper
| Call_setUpper (value : double)
| Get_Lower
| Set_Lower (value : double)
| Get_Type
| Set_Type (value : VariableType)
| Set_Name (value : string)
| Get_IsFrozen
| Call_Freeze
| Call_UnFreeze
| Get_Value
| Set_Value (value : double)
| Get_ReducedCost
| Call_IsFeasible
| Call_Assign (solver : Solver) (offset : Z) (value reducedCost : double).

(** What a request answers. *)
Inductive Answer :=
| Void
| Double (d : double)
| Bool (b : bool)
| OfType (t : VariableType).

Definition perform `{Utils} (DEBUG : bool) (op : Operation) : Method Answer :=
  match op with
  | Call_getUpper => Double <$> getUpper
  | Call_setUpper v => setUpper v ;; mret Void
  | Get_Lower => Double <$> Lower_get
  | Set_Lower v => Lower_set v ;; mret Void
  | Get_Type => OfType <$> Type_get
  | Set_Type t => Type_set t ;; mret Void
  | Set_Name n => Name_set n ;; mret Void
  | Get_IsFrozen => Bool <$> IsFrozen
  | Call_Freeze => Bool <$> Freeze DEBUG
  | Call_UnFreeze => Bool <$> UnFreeze
  | Get_Value => Double <$> Value_get DEBUG
  | Set_Value v => Value_set v ;; mret Void
  | Get_ReducedCost => Double <$> ReducedCost_get
  | Call_IsFeasible => Bool <$> IsFeasible
  | Call_Assign s off v rc => Assign s off v rc ;; mret Void
  end.

(** A caller making requests one after the other. An exception ends the
    sequence where it is thrown. *)
Fixpoint perform_all `{Utils} (DEBUG : bool) (ops : list Operation)
  : Method (list Answer) :=
  match ops with
  | [] => mret []
  | op :: ops =>
      a ← perform DEBUG op;
      rest ← perform_all DEBUG ops;
      mret (a :: rest)
  end.

(** A caller that catches what a request throws and goes on: the state
    after all requests, whatever each of them answered. *)
Fixpoint perform_catching `{Utils} (DEBUG : bool) (ops : list Operation)
    (o : Object) : Object :=
  match ops with
  | [] => o
  | op :: ops => perform_catching DEBUG ops (snd (perform DEBUG op o))
  end.

(** ** A tolerance comparator to run the model with *)

(** Modelled from the spec: Utils.h is missing. A comparison that takes two
    doubles for equal when they are identical or differ by less than
    [Epsilon], an is-between and an integrality test built on it. The model
    is run with it on concrete inputs; no general statement depends on it. *)
Definition Epsilon : double := 0x1p-17%float.

Definition eps_CompareToEps (a b : double) : Z :=
  if PrimFloat.eqb a b then 0
  else if PrimFloat.ltb (PrimFloat.abs (a - b)) Epsilon then 0
  else if PrimFloat.ltb a b then -1 else 1.

(** [lo <= v <= up], each comparison within the tolerance. *)
Definition eps_IsBetween (v lo up : double) : bool :=
  (eps_CompareToEps lo v <=? 0) && (eps_CompareToEps v up <=? 0).

(** The integer nearest to [v]; from 2^52 on every double is an integer. *)
Definition nearest_integer (v : double) : double :=
  if PrimFloat.leb 0x1p52%float (PrimFloat.abs v) then v
  else if PrimFloat.ltb v 0%float
       then ((v - 0x1p52) + 0x1p52)%float
       else ((v + 0x1p52) - 0x1p52)%float.

Definition eps_IsInteger (v : double) : bool :=
  eps_CompareToEps v (nearest_integer v) =? 0.

Definition eps_Utils : Utils :=
  {| getInfinity := PrimFloat.infinity;
     CompareToEps := eps_CompareToEps;
     IsBetween := eps_IsBetween;
     IsInteger := eps_IsInteger |}.

(** * Vocabulary of the statements *)

(** ** The setters *)

(** The pattern of a setter run on [o]: nothing happens when the new value
    is the [same]; otherwise the object becomes [changed] and every attached
    solver receives the one notification [n], and no other solver any. *)
Definition setter_pattern (o : Object) (m : Method unit) (same : bool)
    (changed : SonnetVariable) (n : Notification) : Prop :=
  if same then m o = (inr tt, o)
  else exists new : list Call,
      m o = (inr tt, mkObject changed (calls o ++ new)) /\
      forall s : Solver,
        received s new =
        if decide (s ∈ solvers (base (self o))) then [n] else [].

(** ** Freeze and UnFreeze *)

(** [Value] can be read: the variable is assigned, or the build has no
    debug check. *)
Definition readable (DEBUG : bool) (x : SonnetVariable) : Prop :=
  DEBUG = false \/ Assigned (base x) = true.

(** The calls that pin, and that restore, the bounds of [x] in its solvers. *)
Definition pin (x : SonnetVariable) : list Call :=
  broadcast (solvers (base x)) (SetVariableBounds (id x) (value x) (value x)).
Definition restore (x : SonnetVariable) : list Call :=
  broadcast (solvers (base x)) (SetVariableBounds (id x) (lower x) (upper x)).

(** ** Requests that write the solution *)

Definition is_Assign (op : Operation) : bool :=
  match op with Call_Assign _ _ _ _ => true | _ => false end.

Definition is_Set_Value (op : Operation) : bool :=
  match op with Set_Value _ => true | _ => false end.

(** ** Construction *)

(** The bounds and the type a construction passes on, defaults included. *)
Definition passed_lower (c : Construction) : double :=
  match c with
  | ByType _ | ByNameType _ _ => 0%float
  | ByBounds lo _ _ | ByNameBounds _ lo _ _ => lo
  end.

Definition passed_upper `{Utils} (c : Construction) : double :=
  match c with
  | ByType _ | ByNameType _ _ => getInfinity
  | ByBounds _ up _ | ByNameBounds _ _ up _ => up
  end.

Definition passed_type (c : Construction) : VariableType :=
  match c with
  | ByType t | ByBounds _ _ t | ByNameType _ t | ByNameBounds _ _ _ t => t
  end.

(** The name of a variable constructed with [name] when the counter is [n]. *)
Definition name_given (name : string) (n : Z) : string :=
  if is_empty name then default_name n else name.

(** The name the factories hand to the constructor, and the variable the
    constructor makes of it when the counter holds [n]. *)
Definition factory_name (varname : string) (i : Z) : string :=
  if negb (is_empty varname) then indexed_name varname i else "".

Definition made (raw : SonnetVariable) (name : string) (lo up : double)
    (t : VariableType) (n : Z) : SonnetVariable :=
  mkVariable (mkModelEntity (name_given name n) [] None)
    n 0 (value raw) (reducedCost raw) up lo t.

Section keyed_loop.

Variable storage : Z -> SonnetVariable.
Context {T : Type} `{Countable T}.

(** The loop of the enum overload as a function on maps; [key_int] gives
    the integer that is formatted into the name. *)
Fixpoint keyed_loop (key_int : nat -> T -> Z) (pos : nat) (rest : list T)
    (varname : string) (lo up : double) (t : VariableType)
    (tmp : gmap T SonnetVariable) (n : Z) : gmap T SonnetVariable :=
  match rest with
  | [] => tmp
  | elem :: rest =>
      keyed_loop key_int (S pos) rest varname lo up t
        (<[elem := made (storage (Z.of_nat pos))
                     (factory_name varname (key_int pos elem)) lo up t n]> tmp)
        (n + 1)
  end.

End keyed_loop.

(** ** Variables to run the model on *)

(** Zero-filled storage for an object yet to be constructed. *)
Definition zeroed : SonnetVariable :=
  mkVariable (mkModelEntity "" [] None)
    0 0 0%float 0%float 0%float 0%float Continuous.

(** [Variable x("x", 0.0, 10.0, Continuous)], attached to the solvers 1 and
    2, which no solver has assigned yet. *)
Definition x_unassigned : SonnetVariable :=
  mkVariable (mkModelEntity "x" [1%nat; 2%nat] None)
    0 0 0%float 0%float 10%float 0%float Continuous.

(** The same variable after [Assign(1, 0, 3.0, 0.0)]. *)
Definition x_assigned : SonnetVariable :=
  mkVariable (mkModelEntity "x" [1%nat; 2%nat] (Some (1%nat, 0)))
    0 0 3%float 0%float 10%float 0%float Continuous.

(** ** Requests, by what they may touch *)

(** The variable a notification names as [this]. *)
Definition this_of (n : Notification) : Z :=
  match n with
  | SetVariableUpper this _ | SetVariableLower this _
  | SetVariableBounds this _ _ | SetVariableType this _
  | SetVariableName this _ => this
  end.

Definition is_Freeze (op : Operation) : bool :=
  match op with Call_Freeze => true | _ => false end.

Definition is_UnFreeze (op : Operation) : bool :=
  match op with Call_UnFreeze => true | _ => false end.

(** The members whose body has a loop over the attached solvers. *)
Definition has_solver_loop (op : Operation) : bool :=
  match op with
  | Call_setUpper _ | Set_Lower _ | Set_Type _ | Set_Name _
  | Call_Freeze | Call_UnFreeze => true
  | _ => false
  end.

(** How many requests of a sequence satisfy [f]. *)
Definition count_requests (f : Operation -> bool) (ops : list Operation) : nat :=
  length (List.filter f ops).

(** ** What a solver has been told *)

(** The bound, type or name a notification carries for the variable [this],
    if it carries one. *)
Definition upper_of (this : Z) (n : Notification) : option double :=
  match n with
  | SetVariableUpper t v => if bool_decide (t = this) then Some v else None
  | SetVariableBounds t _ up => if bool_decide (t = this) then Some up else None
  | _ => None
  end.

Definition lower_of (this : Z) (n : Notification) : option double :=
  match n with
  | SetVariableLower t v => if bool_decide (t = this) then Some v else None
  | SetVariableBounds t lo _ => if bool_decide (t = this) then Some lo else None
  | _ => None
  end.

Definition type_of (this : Z) (n : Notification) : option VariableType :=
  match n with
  | SetVariableType t ty => if bool_decide (t = this) then Some ty else None
  | _ => None
  end.

Definition name_of (this : Z) (n : Notification) : option string :=
  match n with
  | SetVariableName t nm => if bool_decide (t = this) then Some nm else None
  | _ => None
  end.

(** The latest that solver [s] has been told, in the calls [cs], of what
    [pick] picks out; [None] when it has been told nothing of the kind. *)
Definition told {A} (pick : Notification -> option A) (s : Solver)
    (cs : list Call) : option A :=
  last (omap pick (received s cs)).

(** What a solver has been told, if anything, is what the variable holds. *)
Definition agrees {A} (view : option A) (a : A) : Prop :=
  match view with Some b => b = a | None => True end.

(** Every attached solver's latest word on the upper bound, the lower
    bound, the type and the name of the variable is what the variable
    itself records. *)
Definition in_sync (o : Object) : Prop :=
  forall s : Solver,
    s ∈ solvers (base (self o)) ->
    agrees (told (upper_of (id (self o))) s (calls o)) (upper (self o)) /\
    agrees (told (lower_of (id (self o))) s (calls o)) (lower (self o)) /\
    agrees (told (type_of (id (self o))) s (calls o)) (type (self o)) /\
    agrees (told (name_of (id (self o))) s (calls o)) (Name (base (self o))).

(** * Properties *)

(** ** Running a method *)

Ltac run_method :=
  unfold perform, fmap, M_fmap, mbind, M_bind, bind, mret, M_ret, ret, throw,
    read, write, foreach_solver; simpl.

Ltac unfold_members :=
  unfold getUpper, setUpper, Lower_get, Lower_set, Type_get, Type_set,
    Name_get, Name_set, IsFrozen, Freeze, UnFreeze, Value_get, Value_set,
    ReducedCost_get, IsFeasible, Assign.

Ltac solve_NoDup :=
  repeat (apply NoDup_cons; split; [rewrite ?elem_of_cons, elem_of_nil; lia|]);
  apply NoDup_nil_2.

Lemma int_wrap_id (z : Z) : INT_MIN <= z <= INT_MAX -> int_wrap z = z.
Proof.
  unfold int_wrap, INT_MIN, INT_MAX. intros Hz.
  rewrite Z.mod_small; lia.
Qed.

(** ** What one solver receives from a loop over the attached solvers *)

Lemma received_app (s : Solver) (cs ds : list Call) :
  received s (cs ++ ds) = received s cs ++ received s ds.
Proof. unfold received. by rewrite filter_app, map_app. Qed.

Lemma received_broadcast_absent (s : Solver) (ss : list Solver) (n : Notification) :
  s ∉ ss -> received s (broadcast ss n) = [].
Proof.
  unfold received, broadcast. induction ss as [|t ss IH]; intros Hs; [done|].
  apply not_elem_of_cons in Hs as [Hne Hs]. simpl.
  rewrite filter_cons. simpl. destruct (decide (t = s)); [congruence|]. auto.
Qed.

Lemma received_broadcast_once (s : Solver) (ss : list Solver) (n : Notification) :
  NoDup ss -> s ∈ ss -> received s (broadcast ss n) = [n].
Proof.
  induction 1 as [|t ss Ht Hnd IH]; intros Hs; [by apply elem_of_nil in Hs|].
  unfold received, broadcast in *. simpl. rewrite filter_cons. simpl.
  destruct (decide (t = s)) as [->|Hne].
  - simpl. f_equal. by apply (received_broadcast_absent s ss n).
  - apply elem_of_cons in Hs as [->|Hs]; [done|]. auto.
Qed.

Lemma received_broadcast (s : Solver) (ss : list Solver) (n : Notification) :
  NoDup ss ->
  received s (broadcast ss n) = if decide (s ∈ ss) then [n] else [].
Proof.
  intros Hnd. destruct (decide (s ∈ ss)).
  - by apply received_broadcast_once.
  - by apply received_broadcast_absent.
Qed.

(** ** The setters *)

Section setters.

Context {U : Utils}.

Lemma setUpper_same (o : Object) (v : double) :
  CompareToEps (upper (self o)) v = 0 -> setUpper v o = (inr tt, o).
Proof. unfold setUpper. run_method. by intros ->. Qed.

Lemma setUpper_changed (o : Object) (v : double) :
  CompareToEps (upper (self o)) v <> 0 ->
  setUpper v o =
  (inr tt, mkObject (with_upper v (self o))
             (calls o ++ broadcast (solvers (base (self o)))
                          (SetVariableUpper (id (self o)) v))).
Proof.
  unfold setUpper. run_method. intros Hne.
  by destruct (Z.eqb_spec (CompareToEps (upper (self o)) v) 0).
Qed.

Lemma Lower_set_same (o : Object) (v : double) :
  CompareToEps (lower (self o)) v = 0 -> Lower_set v o = (inr tt, o).
Proof. unfold Lower_set. run_method. by intros ->. Qed.

Lemma Lower_set_changed (o : Object) (v : double) :
  CompareToEps (lower (self o)) v <> 0 ->
  Lower_set v o =
  (inr tt, mkObject (with_lower v (self o))
             (calls o ++ broadcast (solvers (base (self o)))
                          (SetVariableLower (id (self o)) v))).
Proof.
  unfold Lower_set. run_method. intros Hne.
  by destruct (Z.eqb_spec (CompareToEps (lower (self o)) v) 0).
Qed.

Lemma Type_set_same (o : Object) (t : VariableType) :
  type (self o) = t -> Type_set t o = (inr tt, o).
Proof.
  unfold Type_set. run_method. intros Ht. by rewrite bool_decide_eq_true_2.
Qed.

Lemma Type_set_changed (o : Object) (t : VariableType) :
  type (self o) <> t ->
  Type_set t o =
  (inr tt, mkObject (with_type t (self o))
             (calls o ++ broadcast (solvers (base (self o)))
                          (SetVariableType (id (self o)) t))).
Proof.
  unfold Type_set. run_method. intros Ht. by rewrite bool_decide_eq_false_2.
Qed.

Lemma Name_set_same (o : Object) (n : string) :
  Name (base (self o)) = n -> Name_set n o = (inr tt, o).
Proof.
  unfold Name_set, Name_get. run_method. intros ->. by rewrite String.eqb_refl.
Qed.

Lemma Name_set_changed (o : Object) (n : string) :
  Name (base (self o)) <> n ->
  Name_set n o =
  (inr tt, mkObject (with_name n (self o))
             (calls o ++ broadcast (solvers (base (self o)))
                          (SetVariableName (id (self o)) n))).
Proof.
  unfold Name_set, Name_get. run_method. intros Hn.
  by destruct (String.eqb_spec (Name (base (self o))) n).
Qed.

End setters.

Section setters_claim.

Context {U : Utils}.

Lemma setter_pattern_intro (o : Object) (m : Method unit) (same : bool)
    (changed : SonnetVariable) (n : Notification) :
  NoDup (solvers (base (self o))) ->
  (same = true -> m o = (inr tt, o)) ->
  (same = false ->
   m o = (inr tt, mkObject changed
                    (calls o ++ broadcast (solvers (base (self o))) n))) ->
  setter_pattern o m same changed n.
Proof.
  intros Hnd Hsame Hchanged. unfold setter_pattern. destruct same; [auto|].
  eexists. split; [by apply Hchanged|].
  intros s. by apply received_broadcast.
Qed.

Lemma twice_same (o : Object) (m : Method unit) :
  (forall o', snd (m o) = o' -> m o' = (inr tt, o')) ->
  fst (m o) = inr tt ->
  (m ;; m) o = m o.
Proof.
  intros Hagain Hok. run_method. destruct (m o) as [[e|[]] o'] eqn:E; [done|].
  simpl in *. by rewrite (Hagain o' eq_refl).
Qed.

(** C1. Each of [setUpper] and the [Lower], [Type] and [Name] setters
    follows one pattern on a variable whose attached solvers are a set:
    when the new value compares equal to the current one (by [CompareToEps]
    for the bounds) the object and the calls made are unchanged; otherwise
    the field is written and every attached solver receives exactly one
    notification, which carries the new value. Setting the same value a
    second time changes nothing more. *)
Theorem setters_follow_one_pattern (o : Object) :
  NoDup (solvers (base (self o))) ->
  (forall v : double,
     setter_pattern o (setUpper v) (CompareToEps (upper (self o)) v =? 0)
       (with_upper v (self o)) (SetVariableUpper (id (self o)) v) /\
     (CompareToEps v v = 0 -> (setUpper v ;; setUpper v) o = setUpper v o)) /\
  (forall v : double,
     setter_pattern o (Lower_set v) (CompareToEps (lower (self o)) v =? 0)
       (with_lower v (self o)) (SetVariableLower (id (self o)) v) /\
     (CompareToEps v v = 0 -> (Lower_set v ;; Lower_set v) o = Lower_set v o)) /\
  (forall t : VariableType,
     setter_pattern o (Type_set t) (bool_decide (type (self o) = t))
       (with_type t (self o)) (SetVariableType (id (self o)) t) /\
     (Type_set t ;; Type_set t) o = Type_set t o) /\
  (forall n : string,
     setter_pattern o (Name_set n) (String.eqb (Name (base (self o))) n)
       (with_name n (self o)) (SetVariableName (id (self o)) n) /\
     (Name_set n ;; Name_set n) o = Name_set n o).
Proof.
  intros Hnd. repeat split.
  - apply setter_pattern_intro; [done| |].
    + intros E%Z.eqb_eq. by apply setUpper_same.
    + intros E%Z.eqb_neq. by apply setUpper_changed.
  - intros Hrefl. apply twice_same.
    + intros o' <-.
      destruct (decide (CompareToEps (upper (self o)) v = 0)) as [E|E].
      * rewrite (setUpper_same o v E). by apply setUpper_same.
      * rewrite (setUpper_changed o v E). by apply setUpper_same.
    + destruct (decide (CompareToEps (upper (self o)) v = 0)) as [E|E].
      * by rewrite (setUpper_same o v E).
      * by rewrite (setUpper_changed o v E).
  - apply setter_pattern_intro; [done| |].
    + intros E%Z.eqb_eq. by apply Lower_set_same.
    + intros E%Z.eqb_neq. by apply Lower_set_changed.
  - intros Hrefl. apply twice_same.
    + intros o' <-.
      destruct (decide (CompareToEps (lower (self o)) v = 0)) as [E|E].
      * rewrite (Lower_set_same o v E). by apply Lower_set_same.
      * rewrite (Lower_set_changed o v E). by apply Lower_set_same.
    + destruct (decide (CompareToEps (lower (self o)) v = 0)) as [E|E].
      * by rewrite (Lower_set_same o v E).
      * by rewrite (Lower_set_changed o v E).
  - apply setter_pattern_intro; [done| |].
    + intros E%bool_decide_eq_true. by apply Type_set_same.
    + intros E%bool_decide_eq_false. by apply Type_set_changed.
  - apply twice_same.
    + intros o' <-. destruct (decide (type (self o) = t)) as [E|E].
      * rewrite (Type_set_same o t E). by apply Type_set_same.
      * rewrite (Type_set_changed o t E). by apply Type_set_same.
    + destruct (decide (type (self o) = t)) as [E|E].
      * by rewrite (Type_set_same o t E).
      * by rewrite (Type_set_changed o t E).
  - apply setter_pattern_intro; [done| |].
    + intros E%String.eqb_eq. by apply Name_set_same.
    + intros E%String.eqb_neq. by apply Name_set_changed.
  - apply twice_same.
    + intros o' <-. destruct (decide (Name (base (self o)) = n)) as [E|E].
      * rewrite (Name_set_same o n E). by apply Name_set_same.
      * rewrite (Name_set_changed o n E). by apply Name_set_same.
    + destruct (decide (Name (base (self o)) = n)) as [E|E].
      * by rewrite (Name_set_same o n E).
      * by rewrite (Name_set_changed o n E).
Qed.

End setters_claim.

Lemma setters_follow_one_pattern_witness :
  setter_pattern (mkObject x_assigned []) (setUpper (U:=eps_Utils) 5%float)
    false (with_upper 5%float x_assigned) (SetVariableUpper 0 5%float) /\
  (setUpper (U:=eps_Utils) 5%float ;; setUpper (U:=eps_Utils) 5%float)
    (mkObject x_assigned []) =
  setUpper (U:=eps_Utils) 5%float (mkObject x_assigned []).
Proof.
  destruct (setters_follow_one_pattern (U:=eps_Utils) (mkObject x_assigned []))
    as [Hupper _].
  - simpl. solve_NoDup.
  - destruct (Hupper 5%float) as [Hpattern Htwice].
    split; [exact Hpattern|]. apply Htwice. reflexivity.
Defined.

(** ** Freeze and UnFreeze *)

Section freeze.

Variable DEBUG : bool.

Lemma Value_get_readable (o : Object) :
  readable DEBUG (self o) -> Value_get DEBUG o = (inr (value (self o)), o).
Proof.
  unfold Value_get. run_method. intros [-> | ->]; [done|].
  by rewrite andb_false_r.
Qed.

Lemma Value_get_unassigned (o : Object) :
  Assigned (base (self o)) = false ->
  Value_get true o = (inl (SonnetException "Variable has no assigned model!"), o).
Proof. unfold Value_get. run_method. by intros ->. Qed.

Lemma Freeze_first (o : Object) :
  frozen (self o) = 0 -> readable DEBUG (self o) ->
  Freeze DEBUG o =
  (inr true, mkObject (with_frozen 1 (self o)) (calls o ++ pin (self o))).
Proof.
  intros H0 Hr. unfold Freeze. run_method. rewrite H0. simpl.
  rewrite (Value_get_readable (mkObject _ _)).
  - done.
  - destruct Hr as [?|?]; [by left|by right].
Qed.

Lemma Freeze_first_unreadable (o : Object) :
  frozen (self o) = 0 -> Assigned (base (self o)) = false ->
  Freeze true o =
  (inl (SonnetException "Variable has no assigned model!"),
   mkObject (with_frozen 1 (self o)) (calls o)).
Proof.
  intros H0 Hr. unfold Freeze. run_method. rewrite H0. simpl.
  by rewrite (Value_get_unassigned (mkObject _ _)).
Qed.

Lemma Freeze_again (o : Object) :
  1 <= frozen (self o) < INT_MAX ->
  Freeze DEBUG o =
  (inr false, mkObject (with_frozen (frozen (self o) + 1) (self o)) (calls o)).
Proof.
  intros Hn. unfold Freeze. run_method.
  rewrite int_wrap_id by (unfold INT_MIN, INT_MAX in *; lia).
  by destruct (Z.eqb_spec (frozen (self o) + 1) 1); [lia|].
Qed.

Lemma UnFreeze_unfrozen (o : Object) :
  frozen (self o) <= 0 -> UnFreeze o = (inr false, o).
Proof.
  intros Hn. unfold UnFreeze. run_method.
  by destruct (Z.ltb_spec 0 (frozen (self o))); [lia|].
Qed.

Lemma UnFreeze_last (o : Object) :
  frozen (self o) = 1 ->
  UnFreeze o =
  (inr true, mkObject (with_frozen 0 (self o)) (calls o ++ restore (self o))).
Proof.
  intros Hn. unfold UnFreeze. run_method. rewrite Hn. simpl. rewrite Hn.
  reflexivity.
Qed.

Lemma UnFreeze_nested (o : Object) :
  1 < frozen (self o) <= INT_MAX ->
  UnFreeze o =
  (inr false, mkObject (with_frozen (frozen (self o) - 1) (self o)) (calls o)).
Proof.
  intros Hn. unfold UnFreeze. run_method.
  destruct (Z.ltb_spec 0 (frozen (self o))); [|lia].
  rewrite int_wrap_id by (unfold INT_MIN, INT_MAX in *; lia).
  by destruct (Z.eqb_spec (frozen (self o) - 1) 0); [lia|].
Qed.

End freeze.

(** ** Sequences of requests *)

Section sequences.

Context {U : Utils}.
Variable DEBUG : bool.

Lemma perform_all_cons (op : Operation) (ops : list Operation) (o o1 o2 : Object)
    (a : Answer) (r : list Answer) :
  perform DEBUG op o = (inr a, o1) ->
  perform_all DEBUG ops o1 = (inr r, o2) ->
  perform_all DEBUG (op :: ops) o = (inr (a :: r), o2).
Proof.
  intros H1 H2. simpl. unfold mbind, M_bind, bind. rewrite H1, H2. done.
Qed.

Lemma perform_all_app (ops1 ops2 : list Operation) (o o1 o2 : Object)
    (r1 r2 : list Answer) :
  perform_all DEBUG ops1 o = (inr r1, o1) ->
  perform_all DEBUG ops2 o1 = (inr r2, o2) ->
  perform_all DEBUG (ops1 ++ ops2) o = (inr (r1 ++ r2), o2).
Proof.
  revert o r1. induction ops1 as [|op ops1 IH]; intros o r1 H1 H2.
  - simpl in H1. injection H1 as <- <-. done.
  - simpl in H1. unfold mbind, M_bind, bind in H1.
    destruct (perform DEBUG op o) as [[e|a] o'] eqn:Eop; [done|].
    destruct (perform_all DEBUG ops1 o') as [[e|r] o''] eqn:Erest; [done|].
    injection H1 as <- <-. simpl.
    eapply perform_all_cons; [done|]. by eapply IH.
Qed.

Lemma perform_Freeze (o o' : Object) (b : bool) :
  Freeze DEBUG o = (inr b, o') ->
  perform DEBUG Call_Freeze o = (inr (Bool b), o').
Proof. intros E. run_method. by rewrite E. Qed.

Lemma perform_UnFreeze (o o' : Object) (b : bool) :
  UnFreeze o = (inr b, o') ->
  perform DEBUG Call_UnFreeze o = (inr (Bool b), o').
Proof. intros E. run_method. by rewrite E. Qed.

Lemma Freeze_nested_times (x : SonnetVariable) (cs : list Call) (k : nat) (n : Z) :
  1 <= n -> n + Z.of_nat k <= INT_MAX ->
  perform_all DEBUG (replicate k Call_Freeze) (mkObject (with_frozen n x) cs) =
  (inr (replicate k (Bool false)),
   mkObject (with_frozen (n + Z.of_nat k) x) cs).
Proof.
  revert n. induction k as [|k IH]; intros n Hn Hk.
  - simpl. by rewrite Z.add_0_r.
  - simpl replicate. eapply perform_all_cons.
    + apply perform_Freeze, Freeze_again. simpl. lia.
    + change (perform_all DEBUG (replicate k Call_Freeze)
                (mkObject (with_frozen (n + 1) x) cs) =
              (inr (replicate k (Bool false)),
               mkObject (with_frozen (n + Z.of_nat (S k)) x) cs)).
      rewrite IH by lia. do 3 f_equal. lia.
Qed.

Lemma UnFreeze_nested_times (x : SonnetVariable) (cs : list Call) (k : nat) (n : Z) :
  Z.of_nat k < n <= INT_MAX ->
  perform_all DEBUG (replicate k Call_UnFreeze) (mkObject (with_frozen n x) cs) =
  (inr (replicate k (Bool false)),
   mkObject (with_frozen (n - Z.of_nat k) x) cs).
Proof.
  revert n. induction k as [|k IH]; intros n Hn.
  - simpl. by rewrite Z.sub_0_r.
  - simpl replicate. eapply perform_all_cons.
    + apply perform_UnFreeze, UnFreeze_nested. simpl. lia.
    + change (perform_all DEBUG (replicate k Call_UnFreeze)
                (mkObject (with_frozen (n - 1) x) cs) =
              (inr (replicate k (Bool false)),
               mkObject (with_frozen (n - Z.of_nat (S k)) x) cs)).
      rewrite IH by lia. do 3 f_equal. lia.
Qed.

Lemma UnFreeze_extra_times (o : Object) (k : nat) :
  frozen (self o) = 0 ->
  perform_all DEBUG (replicate k Call_UnFreeze) o =
  (inr (replicate k (Bool false)), o).
Proof.
  intros H0. induction k as [|k IH]; [done|].
  simpl replicate. eapply perform_all_cons; [|done].
  apply perform_UnFreeze, UnFreeze_unfrozen. lia.
Qed.

(** [k] calls of [Freeze] and then [k] calls of [UnFreeze], on an unfrozen
    variable whose value can be read. *)
Lemma Freeze_UnFreeze_times (o : Object) (k extra : nat) :
  frozen (self o) = 0 -> readable DEBUG (self o) ->
  (0 < k)%nat -> Z.of_nat k <= INT_MAX ->
  perform_all DEBUG
    (replicate k Call_Freeze ++ replicate k Call_UnFreeze ++
     replicate extra Call_UnFreeze) o =
  (inr ((Bool true :: replicate (k - 1) (Bool false)) ++
        (replicate (k - 1) (Bool false) ++ [Bool true]) ++
        replicate extra (Bool false)),
   mkObject (self o) (calls o ++ pin (self o) ++ restore (self o))).
Proof.
  intros H0 Hr Hk Hmax. destruct k as [|k]; [lia|].
  rewrite Nat.sub_succ, Nat.sub_0_r.
  replace (replicate (S k) Call_UnFreeze)
    with (replicate k Call_UnFreeze ++ [Call_UnFreeze])
    by (by rewrite <- replicate_cons_app).
  eapply perform_all_app; [|eapply perform_all_app].
  - simpl replicate. eapply perform_all_cons.
    + by apply perform_Freeze, Freeze_first.
    + apply Freeze_nested_times; lia.
  - eapply perform_all_app.
    + apply UnFreeze_nested_times. lia.
    + eapply perform_all_cons; [|done].
      apply perform_UnFreeze, UnFreeze_last. simpl. lia.
  - match goal with
    | |- perform_all _ _ ?ob = _ =>
        replace ob
          with (mkObject (self o) (calls o ++ pin (self o) ++ restore (self o)))
    end.
    + by apply UnFreeze_extra_times.
    + destruct o as [[] cs]. simpl in *. subst. unfold pin, restore. simpl.
      by rewrite <- (assoc_L (++)).
Qed.

End sequences.

(** ** Freeze *)

(** C2, as amended. On a variable whose count is below [INT_MAX] and, when
    the count is 0, whose value can be read (it is assigned, or the build
    has no debug check), [Freeze] adds one to the count and changes no other
    field; when the count was 0 it returns true and every attached solver
    receives exactly one [SetVariableBounds] with the current value as both
    bounds; when the count was at least 1 it returns false and no call is
    made on any solver. *)
Theorem Freeze_pins_on_first_call (DEBUG : bool) (o : Object) :
  0 <= frozen (self o) < INT_MAX ->
  (frozen (self o) = 0 -> readable DEBUG (self o)) ->
  NoDup (solvers (base (self o))) ->
  exists new : list Call,
    Freeze DEBUG o =
    (inr (bool_decide (frozen (self o) = 0)),
     mkObject (with_frozen (frozen (self o) + 1) (self o)) (calls o ++ new)) /\
    lower (self (snd (Freeze DEBUG o))) = lower (self o) /\
    upper (self (snd (Freeze DEBUG o))) = upper (self o) /\
    forall s : Solver,
      received s new =
      if decide (frozen (self o) = 0 /\ s ∈ solvers (base (self o)))
      then [SetVariableBounds (id (self o)) (value (self o)) (value (self o))]
      else [].
Proof.
  intros Hn Hr Hnd. destruct (decide (frozen (self o) = 0)) as [H0|H0].
  - exists (pin (self o)). rewrite (Freeze_first DEBUG o H0 (Hr H0)).
    rewrite bool_decide_eq_true_2 by done. rewrite H0.
    repeat split. intros s. unfold pin. rewrite received_broadcast by done.
    destruct (decide (s ∈ _)), (decide (_ /\ _)); tauto.
  - exists []. rewrite (Freeze_again DEBUG o) by lia.
    rewrite bool_decide_eq_false_2 by done. rewrite app_nil_r.
    repeat split. intros s. destruct (decide (_ /\ _)); tauto.
Qed.

Lemma Freeze_pins_on_first_call_witness :
  exists new : list Call,
    Freeze true (mkObject x_assigned []) =
    (inr true, mkObject (with_frozen 1 x_assigned) new) /\
    received 2%nat new = [SetVariableBounds 0 3%float 3%float].
Proof.
  destruct (Freeze_pins_on_first_call true (mkObject x_assigned []))
    as (new & E & _ & _ & Hs).
  - simpl. unfold INT_MAX. lia.
  - intros _. by right.
  - simpl. solve_NoDup.
  - exists new. split; [exact E|]. exact (Hs 2%nat).
Defined.

(** C2 as stated fails: in a build with the debug check, the first [Freeze]
    of the variable [Variable x("x", 0.0, 10.0, Continuous)], fresh from its
    constructor, throws from reading [Value]; it does not return true, and
    the count is 1 all the same. *)
Lemma Freeze_unassigned_debug_throws :
  exists x : SonnetVariable,
    Variable_name_bounds zeroed "x" 0%float 10%float Continuous
      numberOfVariables_initial = (inr x, 1) /\
    frozen x = 0 /\
    Freeze true (mkObject x []) =
    (inl (SonnetException "Variable has no assigned model!"),
     mkObject (with_frozen 1 x) []) /\
    fst (Freeze true (mkObject x [])) <> inr true.
Proof. eexists. repeat split. discriminate. Qed.

(** ** UnFreeze *)

Section unfreeze_claim.

Context {U : Utils}.

(** C3, as amended. [UnFreeze] on a count of 0 changes nothing and returns
    false; on a count above 1 it takes one off the count, calls no solver
    and returns false; on a count of 1 it sets the count to 0, returns true,
    and every attached solver receives exactly one [SetVariableBounds] with
    the [lower] and [upper] the variable holds at that moment. On an
    unfrozen variable whose value can be read, [k] calls of [Freeze]
    (0 < k <= INT_MAX) followed by [k] calls of [UnFreeze] and any number of
    further calls of [UnFreeze] leave the variable as it was; each attached
    solver has received one pin and then one restore, and nothing else. *)
Theorem UnFreeze_restores_on_last_call (DEBUG : bool) (o : Object) :
  frozen (self o) <= INT_MAX ->
  NoDup (solvers (base (self o))) ->
  (frozen (self o) <= 0 -> UnFreeze o = (inr false, o)) /\
  (1 < frozen (self o) ->
   UnFreeze o =
   (inr false, mkObject (with_frozen (frozen (self o) - 1) (self o)) (calls o))) /\
  (frozen (self o) = 1 ->
   exists new : list Call,
     UnFreeze o = (inr true, mkObject (with_frozen 0 (self o)) (calls o ++ new)) /\
     forall s : Solver,
       received s new =
       if decide (s ∈ solvers (base (self o)))
       then [SetVariableBounds (id (self o)) (lower (self o)) (upper (self o))]
       else []) /\
  (forall k extra : nat,
     frozen (self o) = 0 -> readable DEBUG (self o) ->
     (0 < k)%nat -> Z.of_nat k <= INT_MAX ->
     exists (answers : list Answer) (new : list Call),
       perform_all DEBUG
         (replicate k Call_Freeze ++ replicate k Call_UnFreeze ++
          replicate extra Call_UnFreeze) o =
       (inr answers, mkObject (self o) (calls o ++ new)) /\
       forall s : Solver,
         received s new =
         if decide (s ∈ solvers (base (self o)))
         then [SetVariableBounds (id (self o)) (value (self o)) (value (self o));
               SetVariableBounds (id (self o)) (lower (self o)) (upper (self o))]
         else []).
Proof.
  intros Hmax Hnd. split; [|split; [|split]].
  - apply UnFreeze_unfrozen.
  - intros Hn. apply UnFreeze_nested. lia.
  - intros H1. exists (restore (self o)). split; [by apply UnFreeze_last|].
    intros s. unfold restore. by apply received_broadcast.
  - intros k extra H0 Hr Hk Hkmax. eexists _, (pin (self o) ++ restore (self o)).
    split; [by apply Freeze_UnFreeze_times|].
    intros s. rewrite received_app. unfold pin, restore.
    rewrite !received_broadcast by done.
    by destruct (decide (s ∈ _)).
Qed.

End unfreeze_claim.

Lemma UnFreeze_restores_on_last_call_witness :
  exists (answers : list Answer) (new : list Call),
    perform_all (H:=eps_Utils) false
      [Call_Freeze; Call_Freeze; Call_UnFreeze; Call_UnFreeze; Call_UnFreeze]
      (mkObject x_assigned []) =
    (inr answers, mkObject x_assigned new) /\
    received 1%nat new =
    [SetVariableBounds 0 3%float 3%float; SetVariableBounds 0 0%float 10%float].
Proof.
  destruct (UnFreeze_restores_on_last_call (U:=eps_Utils) false
              (mkObject x_assigned []))
    as (_ & _ & _ & H).
  - simpl. unfold INT_MAX. lia.
  - simpl. solve_NoDup.
  - destruct (H 2%nat 1%nat) as (answers & new & E & Hs).
    + reflexivity.
    + by left.
    + lia.
    + unfold INT_MAX. lia.
    + exists answers, new. split; [exact E|]. exact (Hs 1%nat).
Defined.

(** C3 as stated fails: in a build with the debug check, on a variable no
    solver has assigned, [Freeze] then [UnFreeze] gives no pin. The first
    call throws; a caller that stops there has seen no notification, and a
    caller that goes on to call [UnFreeze] has seen a restore and no pin. *)
Lemma Freeze_UnFreeze_unassigned_debug_no_pin :
  perform_all (H:=eps_Utils) true [Call_Freeze; Call_UnFreeze]
    (mkObject x_unassigned []) =
  (inl (SonnetException "Variable has no assigned model!"),
   mkObject (with_frozen 1 x_unassigned) []) /\
  perform_catching (H:=eps_Utils) true [Call_Freeze; Call_UnFreeze]
    (mkObject x_unassigned []) =
  mkObject x_unassigned
    [(1%nat, SetVariableBounds 0 0%float 10%float);
     (2%nat, SetVariableBounds 0 0%float 10%float)].
Proof. split; reflexivity. Qed.

(** ** Bound changes on a frozen variable *)

Section frozen_setters_claim.

Context {U : Utils}.

(** C4, as amended. On a frozen variable [setUpper] and the [Lower] setter
    behave as on any other: a changed bound is written to the variable's own
    field at once, and every attached solver receives exactly one
    notification of the new bound. When the count is 1, the [UnFreeze] that
    follows sends every attached solver the bounds the variable then
    records. *)
Theorem setters_notify_while_frozen (o : Object) (v : double) :
  0 < frozen (self o) ->
  NoDup (solvers (base (self o))) ->
  setter_pattern o (setUpper v) (CompareToEps (upper (self o)) v =? 0)
    (with_upper v (self o)) (SetVariableUpper (id (self o)) v) /\
  setter_pattern o (Lower_set v) (CompareToEps (lower (self o)) v =? 0)
    (with_lower v (self o)) (SetVariableLower (id (self o)) v) /\
  (frozen (self o) = 1 ->
   forall m : Method unit, m = setUpper v \/ m = Lower_set v ->
     let o' := snd (m o) in
     UnFreeze o' =
     (inr true, mkObject (with_frozen 0 (self o')) (calls o' ++ restore (self o')))).
Proof.
  intros Hf Hnd. split; [|split].
  - apply setter_pattern_intro; [done| |].
    + intros E%Z.eqb_eq. by apply setUpper_same.
    + intros E%Z.eqb_neq. by apply setUpper_changed.
  - apply setter_pattern_intro; [done| |].
    + intros E%Z.eqb_eq. by apply Lower_set_same.
    + intros E%Z.eqb_neq. by apply Lower_set_changed.
  - intros H1 m [-> | ->]; simpl; apply UnFreeze_last.
    + destruct (decide (CompareToEps (upper (self o)) v = 0)) as [E|E].
      * by rewrite (setUpper_same o v E).
      * by rewrite (setUpper_changed o v E).
    + destruct (decide (CompareToEps (lower (self o)) v = 0)) as [E|E].
      * by rewrite (Lower_set_same o v E).
      * by rewrite (Lower_set_changed o v E).
Qed.

End frozen_setters_claim.

Lemma setters_notify_while_frozen_witness :
  setter_pattern (mkObject (with_frozen 1 x_assigned) [])
    (setUpper (U:=eps_Utils) 5%float) false
    (with_upper 5%float (with_frozen 1 x_assigned))
    (SetVariableUpper 0 5%float).
Proof.
  apply (setters_notify_while_frozen (U:=eps_Utils)
           (mkObject (with_frozen 1 x_assigned) []) 5%float).
  - simpl. lia.
  - simpl. solve_NoDup.
Defined.

(** C4 as stated fails: after [Freeze], [setUpper(5.0)] on a variable with
    upper bound 10 is sent to both attached solvers, which are still frozen
    in the variable's eyes. *)
Lemma setUpper_while_frozen_reaches_solvers :
  perform_all (H:=eps_Utils) true
    [Call_Freeze; Call_setUpper 5%float; Get_IsFrozen]
    (mkObject x_assigned []) =
  (inr [Bool true; Void; Bool true],
   mkObject (with_upper 5%float (with_frozen 1 x_assigned))
     [(1%nat, SetVariableBounds 0 3%float 3%float);
      (2%nat, SetVariableBounds 0 3%float 3%float);
      (1%nat, SetVariableUpper 0 5%float);
      (2%nat, SetVariableUpper 0 5%float)]).
Proof. reflexivity. Qed.

(** ** Assign, value and reducedCost *)

Section assign_claim.

Context {U : Utils}.

Lemma Assign_spec (solver : Solver) (offset : Z) (v rc : double) (o : Object) :
  Assign solver offset v rc o =
  (inr tt,
   mkObject
     (mkVariable (ModelEntity_Assign solver offset (base (self o)))
        (id (self o)) (frozen (self o)) v rc
        (upper (self o)) (lower (self o)) (type (self o)))
     (calls o)).
Proof. reflexivity. Qed.

Lemma perform_keeps_reducedCost (DEBUG : bool) (op : Operation) (o : Object) :
  is_Assign op = false ->
  reducedCost (self (snd (perform DEBUG op o))) = reducedCost (self o).
Proof.
  intros Hop. destruct op; try discriminate Hop;
    unfold perform; unfold_members; run_method; repeat case_match;
    by simplify_eq.
Qed.

Lemma perform_keeps_value (DEBUG : bool) (op : Operation) (o : Object) :
  is_Assign op = false -> is_Set_Value op = false ->
  value (self (snd (perform DEBUG op o))) = value (self o).
Proof.
  intros Hop Hop'. destruct op; try discriminate Hop; try discriminate Hop';
    unfold perform; unfold_members; run_method; repeat case_match;
    by simplify_eq.
Qed.

Lemma perform_keeps_Assigned (DEBUG : bool) (op : Operation) (o : Object) :
  is_Assign op = false ->
  Assigned (base (self (snd (perform DEBUG op o)))) = Assigned (base (self o)).
Proof.
  intros Hop. destruct op; try discriminate Hop;
    unfold perform; unfold_members; run_method; repeat case_match;
    by simplify_eq.
Qed.

(** C5, as amended. [Assign] records the solver/offset pair in the base,
    overwrites [value] and [reducedCost], and changes nothing else. It is
    the only member that changes [reducedCost]. [value] is changed by
    [Assign] and by the public setter of [Value], and by no other member. *)
Theorem Assign_and_Value_setter_write_value (DEBUG : bool) (op : Operation)
    (o : Object) :
  (forall (solver : Solver) (offset : Z) (v rc : double),
     op = Call_Assign solver offset v rc ->
     perform DEBUG op o =
     (inr Void,
      mkObject
        (mkVariable
           (mkModelEntity (Name (base (self o))) (solvers (base (self o)))
              (Some (solver, offset)))
           (id (self o)) (frozen (self o)) v rc
           (upper (self o)) (lower (self o)) (type (self o)))
        (calls o))) /\
  (is_Assign op = false ->
   reducedCost (self (snd (perform DEBUG op o))) = reducedCost (self o)) /\
  (is_Assign op = false -> is_Set_Value op = false ->
   value (self (snd (perform DEBUG op o))) = value (self o)).
Proof.
  split; [|split].
  - intros solver offset v rc ->. reflexivity.
  - apply perform_keeps_reducedCost.
  - apply perform_keeps_value.
Qed.

End assign_claim.

Lemma Assign_and_Value_setter_write_value_witness :
  value (self (snd (perform (H:=eps_Utils) false (Call_setUpper 5%float)
                      (mkObject x_assigned [])))) = 3%float.
Proof.
  apply (Assign_and_Value_setter_write_value (U:=eps_Utils) false
           (Call_setUpper 5%float) (mkObject x_assigned []));
    reflexivity.
Defined.

(** C5 as stated fails: the public setter of [Value] overwrites [value]
    without any [Assign]. *)
Lemma Value_setter_overwrites_value :
  perform (H:=eps_Utils) false (Set_Value 7%float) (mkObject x_assigned []) =
  (inr Void, mkObject (with_value 7%float x_assigned) []) /\
  value x_assigned = 3%float /\
  value (with_value 7%float x_assigned) = 7%float /\
  value (with_value 7%float x_assigned) <> value x_assigned.
Proof.
  repeat split. simpl. intros E.
  apply (f_equal (fun d => PrimFloat.eqb d 3%float)) in E.
  vm_compute in E. discriminate E.
Qed.

(** ** Reading the value of an unassigned variable *)

Section unassigned_claim.

Context {U : Utils}.

Lemma perform_catching_keeps_unassigned (DEBUG : bool) (ops : list Operation)
    (o : Object) :
  Forall (fun op => is_Assign op = false) ops ->
  Assigned (base (self o)) = false ->
  Assigned (base (self (perform_catching DEBUG ops o))) = false.
Proof.
  intros Hops. revert o. induction Hops as [|op ops Hop _ IH]; intros o Ho.
  - done.
  - simpl. apply IH. by rewrite perform_keeps_Assigned.
Qed.

Lemma construct_unassigned (raw : SonnetVariable) (c : Construction) (n : Z) :
  exists x : SonnetVariable,
    construct raw c n = (inr x, int_wrap (n + 1)) /\
    Assigned (base x) = false /\ solvers (base x) = [].
Proof.
  destruct c; simpl;
    unfold Variable_type, Variable_bounds, Variable_name_type,
      Variable_name_bounds, GutsOfConstructor;
    eexists; (split; [reflexivity|]); by case_match.
Qed.

(** C6. In a build with the debug check, reading [Value] of a variable
    that no solver has assigned throws SonnetException("Variable has no
    assigned model!") and returns no number, and it does so after every
    sequence of requests without an [Assign] (a variable from any of the
    constructors is unassigned, see [construct_unassigned]). *)
Theorem Value_unassigned_throws_in_debug (o : Object) :
  Assigned (base (self o)) = false ->
  Value_get true o =
    (inl (SonnetException "Variable has no assigned model!"), o) /\
  (forall v : double, fst (Value_get true o) <> inr v) /\
  forall ops : list Operation,
    Forall (fun op => is_Assign op = false) ops ->
    fst (Value_get true (perform_catching true ops o)) =
    inl (SonnetException "Variable has no assigned model!").
Proof.
  intros Ho. split; [by apply Value_get_unassigned|split].
  - intros v. by rewrite Value_get_unassigned.
  - intros ops Hops. rewrite Value_get_unassigned; [done|].
    by apply perform_catching_keeps_unassigned.
Qed.

End unassigned_claim.

Lemma Value_unassigned_throws_in_debug_witness :
  Value_get true (mkObject x_unassigned []) =
  (inl (SonnetException "Variable has no assigned model!"),
   mkObject x_unassigned []).
Proof.
  apply (Value_unassigned_throws_in_debug (U:=eps_Utils)
           (mkObject x_unassigned [])).
  reflexivity.
Defined.

(** ** IsFeasible *)

Section feasible_claim.

Context {U : Utils}.

Lemma IsFeasible_spec (o : Object) :
  IsFeasible o =
  (inr (IsBetween (value (self o)) (lower (self o)) (upper (self o)) &&
        (if decide (type (self o) = Integer)
         then IsInteger (value (self o)) else true)),
   o).
Proof.
  unfold IsFeasible. run_method.
  destruct (IsBetween _ _ _); [|done]. simpl.
  destruct (decide (type (self o) = Integer)) as [E|E].
  - rewrite bool_decide_eq_true_2 by done. by destruct (IsInteger _).
  - by rewrite bool_decide_eq_false_2.
Qed.

(** C7. [IsFeasible] changes nothing and returns true exactly when
    [IsBetween] holds of the value and the bounds and, for an [Integer]
    variable, [IsInteger] holds of the value. So it returns false for a
    [Continuous] variable whose value is not between the bounds, and for an
    [Integer] variable whose value is not integral, whatever the bounds. *)
Theorem IsFeasible_iff_between_and_integral (o : Object) :
  exists b : bool,
    IsFeasible o = (inr b, o) /\
    (b = true <->
     IsBetween (value (self o)) (lower (self o)) (upper (self o)) = true /\
     (type (self o) = Integer -> IsInteger (value (self o)) = true)) /\
    (type (self o) = Continuous ->
     IsBetween (value (self o)) (lower (self o)) (upper (self o)) = false ->
     b = false) /\
    (type (self o) = Integer -> IsInteger (value (self o)) = false -> b = false).
Proof.
  eexists. split; [apply IsFeasible_spec|].
  destruct (IsBetween _ _ _), (decide (type (self o) = Integer)) as [E|E];
    simpl; repeat split; try tauto; congruence.
Qed.

End feasible_claim.

(** ** Identity and default names *)

Section identity_claim.

Context {U : Utils}.

Lemma GutsOfConstructor_spec (name : string) (lo up : double) (t : VariableType)
    (this : SonnetVariable) (n : Z) :
  GutsOfConstructor name lo up t this n =
  (inr (mkVariable (ModelEntity_setName (name_given name n) (base this))
          n 0 (value this) (reducedCost this) up lo t),
   int_wrap (n + 1)).
Proof. unfold GutsOfConstructor, name_given. by destruct (is_empty name). Qed.

Lemma construct_shared_routine (raw : SonnetVariable) (c : Construction) :
  construct raw c =
  GutsOfConstructor (supplied_name c) (passed_lower c) (passed_upper c)
    (passed_type c) (with_base (ModelEntity_new (supplied_name c)) raw).
Proof. by destruct c. Qed.

Lemma construct_spec (raw : SonnetVariable) (c : Construction) (n : Z) :
  exists x : SonnetVariable,
    construct raw c n = (inr x, int_wrap (n + 1)) /\
    id x = n /\ Name (base x) = name_given (supplied_name c) n.
Proof.
  rewrite construct_shared_routine, GutsOfConstructor_spec. by eexists.
Qed.

Lemma construct_all_spec (cs : list (SonnetVariable * Construction)) (n : Z) :
  0 <= n -> n + Z.of_nat (length cs) <= INT_MAX ->
  exists xs : list SonnetVariable,
    construct_all cs n = (inr xs, n + Z.of_nat (length cs)) /\
    length xs = length cs /\
    forall (i : nat) (x : SonnetVariable),
      xs !! i = Some x ->
      id x = n + Z.of_nat i /\
      exists (raw : SonnetVariable) (c : Construction),
        cs !! i = Some (raw, c) /\
        Name (base x) = name_given (supplied_name c) (id x).
Proof.
  revert n. induction cs as [|[raw c] cs IH]; intros n Hn Hmax.
  - exists []. simpl. rewrite Z.add_0_r. split; [done|]. split; [done|].
    intros i x Hi. by rewrite lookup_nil in Hi.
  - simpl length in *.
    destruct (construct_spec raw c n) as (x & Ex & Hid & Hname).
    rewrite int_wrap_id in Ex by (unfold INT_MIN, INT_MAX in *; lia).
    destruct (IH (n + 1)) as (xs & Exs & Hlen & Hxs); [lia|lia|].
    exists (x :: xs). simpl. unfold mbind, M_bind, bind. rewrite Ex, Exs.
    split; [|split].
    + unfold mret, M_ret, ret. f_equal. lia.
    + by rewrite Hlen.
    + intros [|i] y Hy; simpl in Hy.
      * injection Hy as <-. split; [lia|]. exists raw, c. by rewrite Hid.
      * destruct (Hxs i y Hy) as (Hidy & Hc). split; [lia|]. exact Hc.
Qed.

(** C8. The four public constructors all run [GutsOfConstructor] on their
    arguments and defaults. Any sequence of constructions, started when the
    counter holds [n] (0 at program start) and staying within [int], gives
    the variables the ids [n], [n+1], ... in construction order, so the ids
    are strictly increasing, pairwise different, and all below the counter
    left for later constructions; the counter has advanced by one per
    construction. A variable constructed with no name, or with an empty one,
    is named "Var_" followed by its id in decimal; any other keeps the name
    it was given. *)
Theorem constructions_number_variables
    (cs : list (SonnetVariable * Construction)) (n : Z) :
  0 <= n -> n + Z.of_nat (length cs) <= INT_MAX ->
  numberOfVariables_initial = 0 /\
  (forall (raw : SonnetVariable) (c : Construction),
     construct raw c =
     GutsOfConstructor (supplied_name c) (passed_lower c) (passed_upper c)
       (passed_type c) (with_base (ModelEntity_new (supplied_name c)) raw)) /\
  exists xs : list SonnetVariable,
    construct_all cs n = (inr xs, n + Z.of_nat (length cs)) /\
    length xs = length cs /\
    (forall (i : nat) (x : SonnetVariable),
       xs !! i = Some x ->
       id x = n + Z.of_nat i /\ n <= id x < n + Z.of_nat (length cs)) /\
    (forall (i j : nat) (x y : SonnetVariable),
       xs !! i = Some x -> xs !! j = Some y ->
       ((i < j)%nat -> id x < id y) /\ (i <> j -> id x <> id y)) /\
    (forall (i : nat) (x : SonnetVariable) (raw : SonnetVariable)
            (c : Construction),
       xs !! i = Some x -> cs !! i = Some (raw, c) ->
       Name (base x) =
       if is_empty (supplied_name c)
       then "Var_" +:+ format_int (id x) else supplied_name c).
Proof.
  intros Hn Hmax. split; [done|]. split; [apply construct_shared_routine|].
  destruct (construct_all_spec cs n Hn Hmax) as (xs & E & Hlen & Hxs).
  exists xs. split; [done|]. split; [done|]. split; [|split].
  - intros i x Hi. destruct (Hxs i x Hi) as [Hid _].
    apply lookup_lt_Some in Hi. lia.
  - intros i j x y Hi Hj.
    destruct (Hxs i x Hi) as [Hx _], (Hxs j y Hj) as [Hy _]. lia.
  - intros i x raw c Hi Hc. destruct (Hxs i x Hi) as (_ & raw' & c' & Hc' & Hname).
    rewrite Hc in Hc'. injection Hc' as <- <-. exact Hname.
Qed.

End identity_claim.

Lemma constructions_number_variables_witness :
  exists xs : list SonnetVariable,
    construct_all (H:=eps_Utils)
      [(x_unassigned, ByType Integer);
       (x_unassigned, ByNameBounds "y" 0%float 1%float Continuous);
       (x_unassigned, ByBounds 0%float 1%float Continuous)]
      numberOfVariables_initial = (inr xs, 3) /\
    (Name ∘ base) <$> xs = ["Var_0"; "y"; "Var_2"].
Proof.
  destruct (constructions_number_variables (U:=eps_Utils)
              [(x_unassigned, ByType Integer);
               (x_unassigned, ByNameBounds "y" 0%float 1%float Continuous);
               (x_unassigned, ByBounds 0%float 1%float Continuous)]
              numberOfVariables_initial)
    as (_ & _ & xs & E & _).
  - unfold numberOfVariables_initial. lia.
  - unfold numberOfVariables_initial, INT_MAX. simpl. lia.
  - exists xs. split; [exact E|].
    vm_compute in E. injection E as <-. reflexivity.
Defined.

(** ** The factories *)

Lemma indexed_name_not_empty (varname : string) (i : Z) :
  is_empty (indexed_name varname i) = false.
Proof. unfold indexed_name. by destruct varname. Qed.

Lemma append_inj_l (p s t : string) : p +:+ s = p +:+ t -> s = t.
Proof.
  induction p as [|a p IH]; simpl; [done|]. intros E. injection E as E. auto.
Qed.

Lemma indexed_name_inj (varname : string) (i j : Z) :
  indexed_name varname i = indexed_name varname j -> i = j.
Proof.
  unfold indexed_name, format_int. intros E.
  apply append_inj_l, append_inj_l in E. by apply (inj pretty) in E.
Qed.

Lemma Variable_name_bounds_spec (raw : SonnetVariable) (name : string)
    (lo up : double) (t : VariableType) (n : Z) :
  Variable_name_bounds raw name lo up t n =
  (inr (made raw name lo up t n), int_wrap (n + 1)).
Proof. unfold Variable_name_bounds. by rewrite GutsOfConstructor_spec. Qed.

Lemma made_factory_name (raw : SonnetVariable) (varname : string) (i : Z)
    (lo up : double) (t : VariableType) (n : Z) :
  Name (base (made raw (factory_name varname i) lo up t n)) =
  if is_empty varname then default_name n else indexed_name varname i.
Proof.
  unfold made, factory_name, name_given. simpl.
  destruct (is_empty varname) eqn:E; simpl; [done|].
  by rewrite indexed_name_not_empty.
Qed.

Section factories.

Context {U : Utils}.
Variable storage : Z -> SonnetVariable.

Lemma New_loop_spec (varname : string) (lo up : double) (t : VariableType)
    (k : nat) (i n : Z) :
  0 <= i -> i + Z.of_nat k <= INT_MAX ->
  0 <= n -> n + Z.of_nat k <= INT_MAX ->
  exists xs : list SonnetVariable,
    New_loop storage k i varname lo up t n = (inr xs, n + Z.of_nat k) /\
    length xs = k /\
    forall (j : nat) (x : SonnetVariable),
      xs !! j = Some x ->
      x = made (storage (i + Z.of_nat j)) (factory_name varname (i + Z.of_nat j))
            lo up t (n + Z.of_nat j).
Proof.
  revert i n. induction k as [|k IH]; intros i n Hi Hik Hn Hnk.
  - exists []. simpl. rewrite Z.add_0_r. split; [done|]. split; [done|].
    intros j x Hj. by rewrite lookup_nil in Hj.
  - destruct (IH (i + 1) (n + 1)) as (xs & E & Hlen & Hxs); [lia..|].
    exists (made (storage i) (factory_name varname i) lo up t n :: xs).
    simpl New_loop. unfold mbind, M_bind, bind.
    rewrite Variable_name_bounds_spec.
    rewrite !int_wrap_id by (unfold INT_MIN, INT_MAX in *; lia).
    rewrite E. split; [|split].
    + unfold mret, M_ret, ret. f_equal. lia.
    + simpl. by rewrite Hlen.
    + intros [|j] x Hj; simpl in Hj.
      * injection Hj as <-. by rewrite !Z.add_0_r.
      * rewrite (Hxs j x Hj).
        replace (i + Z.of_nat (S j)) with (i + 1 + Z.of_nat j) by lia.
        by replace (n + Z.of_nat (S j)) with (n + 1 + Z.of_nat j) by lia.
Qed.

Section keyed.

Context {T : Type} `{Countable T}.

Lemma New_enum_loop_keyed (enum_int : T -> Z) (varname : string)
    (lo up : double) (t : VariableType) (rest : list T) (pos : nat)
    (tmp : gmap T SonnetVariable) (n : Z) :
  0 <= n -> n + Z.of_nat (length rest) <= INT_MAX ->
  New_enum_loop storage enum_int pos rest varname lo up t tmp n =
  (inr (keyed_loop storage (fun _ i => enum_int i) pos rest varname lo up t tmp n),
   n + Z.of_nat (length rest)).
Proof.
  revert pos tmp n. induction rest as [|elem rest IH]; intros pos tmp n Hn Hmax.
  - simpl. by rewrite Z.add_0_r.
  - simpl length in Hmax. simpl New_enum_loop. unfold mbind, M_bind, bind.
    rewrite Variable_name_bounds_spec.
    rewrite int_wrap_id by (unfold INT_MIN, INT_MAX in *; lia).
    rewrite IH by lia. simpl. f_equal. lia.
Qed.

Lemma keyed_loop_absent (key_int : nat -> T -> Z) (varname : string)
    (lo up : double) (t : VariableType) (rest : list T) (pos : nat)
    (tmp : gmap T SonnetVariable) (n : Z) (k : T) :
  k ∉ rest ->
  keyed_loop storage key_int pos rest varname lo up t tmp n !! k = tmp !! k.
Proof.
  revert pos tmp n. induction rest as [|elem rest IH]; intros pos tmp n Hk.
  - done.
  - apply not_elem_of_cons in Hk as [Hne Hk]. simpl.
    rewrite IH by done. by rewrite lookup_insert_ne.
Qed.

(** The element at position [j] of the rest is mapped to the variable made
    in that iteration, unless the same element comes again further on. *)
Lemma keyed_loop_lookup (key_int : nat -> T -> Z) (varname : string)
    (lo up : double) (t : VariableType) (rest : list T) (pos : nat)
    (tmp : gmap T SonnetVariable) (n : Z) (j : nat) (elem : T) :
  rest !! j = Some elem ->
  elem ∉ drop (S j) rest ->
  keyed_loop storage key_int pos rest varname lo up t tmp n !! elem =
  Some (made (storage (Z.of_nat (pos + j)))
          (factory_name varname (key_int (pos + j)%nat elem)) lo up t
          (n + Z.of_nat j)).
Proof.
  revert pos tmp n j.
  induction rest as [|e rest IH]; intros pos tmp n j Hj Hlast.
  - by rewrite lookup_nil in Hj.
  - destruct j as [|j]; simpl in Hj.
    + injection Hj as ->. simpl in Hlast. rewrite drop_0 in Hlast. simpl.
      rewrite keyed_loop_absent by done. rewrite lookup_insert_eq.
      by rewrite Nat.add_0_r, Z.add_0_r.
    + simpl in Hlast. simpl. rewrite (IH _ _ _ j) by done.
      replace (S pos + j)%nat with (pos + S j)%nat by lia.
      by replace (n + 1 + Z.of_nat j) with (n + Z.of_nat (S j)) by lia.
Qed.

End keyed.

End factories.

Lemma last_occurrence `{EqDecision T} (l : list T) (elem : T) :
  elem ∈ l -> exists j : nat, l !! j = Some elem /\ elem ∉ drop (S j) l.
Proof.
  induction l as [|e l IH]; intros Hin; [by apply elem_of_nil in Hin|].
  destruct (decide (elem ∈ l)) as [Hl|Hl].
  - destruct (IH Hl) as (j & Hj & Hlast). by exists (S j).
  - apply elem_of_cons in Hin as [->|Hin]; [|done].
    exists 0%nat. simpl. by rewrite drop_0.
Qed.

Section bulk_factory.

Variable storage : Z -> SonnetVariable.

(** X17. [New(n, varname, ...)] with 0 <= n makes [n] variables with
    consecutive ids and the bounds and type passed in; the one at index [j]
    is named [varname_j] when [varname] is not empty and "Var_" followed by
    its own id when it is. The counter advances by [n]. *)
Theorem New_names_variables_by_index (n : Z) (varname : string)
    (lo up : double) (t : VariableType) (c : Z) :
  0 <= c -> 0 <= n -> c + n <= INT_MAX ->
  exists xs : list SonnetVariable,
    New storage n varname lo up t c = (inr xs, c + n) /\
    length xs = Z.to_nat n /\
    forall (j : nat) (x : SonnetVariable),
      xs !! j = Some x ->
      id x = c + Z.of_nat j /\
      lower x = lo /\ upper x = up /\ type x = t /\
      Name (base x) =
      if is_empty varname then "Var_" +:+ format_int (id x)
      else varname +:+ "_" +:+ format_int (Z.of_nat j).
Proof.
  intros Hc Hn Hmax. unfold New.
  destruct (Z.ltb_spec n 0) as [?|_]; [lia|].
  destruct (New_loop_spec storage varname lo up t (Z.to_nat n) 0 c)
    as (xs & E & Hlen & Hxs); [unfold INT_MAX in *; lia..|].
  exists xs. rewrite E. split; [f_equal; lia|]. split; [done|].
  intros j x Hj. rewrite (Hxs j x Hj), made_factory_name. simpl.
  by rewrite Z.add_0_l.
Qed.

End bulk_factory.

Lemma New_names_variables_by_index_witness :
  exists xs : list SonnetVariable,
    New (fun _ => zeroed) 3 "x" 0%float 1%float Continuous 0 = (inr xs, 3) /\
    (Name ∘ base) <$> xs = ["x_0"; "x_1"; "x_2"].
Proof.
  destruct (New_names_variables_by_index (fun _ => zeroed) 3 "x" 0%float
              1%float Continuous 0) as (xs & E & _);
    [lia|lia|unfold INT_MAX; lia|].
  exists xs. split; [exact E|].
  vm_compute in E. injection E as <-. reflexivity.
Defined.

Section enum_factory.

Variable storage : Z -> SonnetVariable.
Context {T : Type} `{Countable T}.
Variable GetValues : list T.
Variable enum_int : T -> Z.

(** The enum overload formats the enum value itself into the name. *)
Lemma New_enum_names_by_key (varname : string) (lo up : double)
    (t : VariableType) (c : Z) (i : T) :
  0 <= c -> c + Z.of_nat (length GetValues) <= INT_MAX ->
  is_empty varname = false -> i ∈ GetValues ->
  exists (m : gmap T SonnetVariable) (x : SonnetVariable),
    New_enum storage true GetValues enum_int varname lo up t c =
    (inr m, c + Z.of_nat (length GetValues)) /\
    m !! i = Some x /\
    Name (base x) = varname +:+ "_" +:+ format_int (enum_int i).
Proof.
  intros Hc Hmax Hname Hin.
  destruct (last_occurrence GetValues i Hin) as (j & Hj & Hlast).
  eexists _, _. unfold New_enum. simpl.
  split; [by apply New_enum_loop_keyed|].
  split; [by apply keyed_loop_lookup|].
  by rewrite made_factory_name, Hname.
Qed.

Lemma New_enum_not_enum (varname : string) (lo up : double)
    (t : VariableType) (c : Z) :
  New_enum storage false GetValues enum_int varname lo up t c =
  (inl (ArgumentException "T must be an enumerated type"), c).
Proof. reflexivity. Qed.

End enum_factory.

(** ** Equality and inequality operators *)

Section operators_claim.

Context {Expression Constraint : Type} `{ExpressionAlgebra Expression Constraint}.

(** C10. Each of the three [!=] operators throws SonnetException("Cannot
    use != operator") on every input and so gives no constraint; each of the
    three [==] operators returns a [Constraint], the one Expression's
    equality builds from the single-term expressions of its operands. *)
Theorem not_equal_throws_and_equal_builds_constraint (c : double)
    (x y : SonnetVariable) :
  ((ne_double_Variable c x : Result Constraint) =
     inl (SonnetException "Cannot use != operator") /\
   (ne_Variable_double x c : Result Constraint) =
     inl (SonnetException "Cannot use != operator") /\
   (ne_Variable_Variable x y : Result Constraint) =
     inl (SonnetException "Cannot use != operator")) /\
  (forall k : Constraint,
     ne_double_Variable c x <> inr k /\
     ne_Variable_double x c <> inr k /\
     ne_Variable_Variable x y <> inr k) /\
  eq_double_Variable c x = inr (Expression_eq_left c (new_Expression x)) /\
  eq_Variable_double x c = inr (Expression_eq_right (new_Expression x) c) /\
  eq_Variable_Variable x y =
    inr (Expression_eq (new_Expression x) (new_Expression y)).
Proof. repeat split; discriminate. Qed.

End operators_claim.

(** * Further properties of the members *)

(** ** What a member leaves alone *)

Lemma elem_of_broadcast (s : Solver) (n m : Notification) (ss : list Solver) :
  (s, n) ∈ broadcast ss m <-> s ∈ ss /\ n = m.
Proof.
  unfold broadcast. rewrite list_elem_of_fmap. split.
  - intros (t & E & Ht). by injection E as -> ->.
  - intros [Hs ->]. by exists s.
Qed.

Section frames.

Context {U : Utils}.
Variable DEBUG : bool.

(** X1. No member changes the id of a variable or the solvers it is
    attached to, and each declared field has one writer: [upper] changes
    only in [setUpper], [lower] only in the [Lower] setter, [type] only in
    the [Type] setter, the name only in the [Name] setter, the freeze count
    only in [Freeze] and [UnFreeze], and the recorded solver/offset pair
    only in [Assign]. *)
Theorem members_write_their_own_field (op : Operation) (o : Object) :
  id (self (snd (perform DEBUG op o))) = id (self o) /\
  solvers (base (self (snd (perform DEBUG op o)))) = solvers (base (self o)) /\
  (upper (self (snd (perform DEBUG op o))) <> upper (self o) ->
   exists v, op = Call_setUpper v) /\
  (lower (self (snd (perform DEBUG op o))) <> lower (self o) ->
   exists v, op = Set_Lower v) /\
  (type (self (snd (perform DEBUG op o))) <> type (self o) ->
   exists t, op = Set_Type t) /\
  (Name (base (self (snd (perform DEBUG op o)))) <> Name (base (self o)) ->
   exists n, op = Set_Name n) /\
  (frozen (self (snd (perform DEBUG op o))) <> frozen (self o) ->
   op = Call_Freeze \/ op = Call_UnFreeze) /\
  (assignedSolver (base (self (snd (perform DEBUG op o)))) <>
   assignedSolver (base (self o)) ->
   exists solver offset v rc, op = Call_Assign solver offset v rc).
Proof.
  destruct op; unfold perform; unfold_members; run_method;
    repeat case_match; simplify_eq; simpl;
    repeat split; intros Hne; try done; eauto.
Qed.

End frames.

(** ** The calls a member makes *)

Section calls_made.

Context {U : Utils}.
Variable DEBUG : bool.

(** X2. A member never takes back or reorders calls already made on
    solvers: it only adds to them. Every call it adds is made on a solver
    the variable is attached to and names this variable; and the getters,
    [IsFeasible], the [Value] setter and [Assign], which have no loop over
    the solvers, add none, whether they return or throw. *)
Theorem members_call_only_attached_solvers (op : Operation) (o : Object) :
  exists new : list Call,
    calls (snd (perform DEBUG op o)) = calls o ++ new /\
    (forall (s : Solver) (n : Notification),
       (s, n) ∈ new ->
       s ∈ solvers (base (self o)) /\ this_of n = id (self o)) /\
    (has_solver_loop op = false -> new = []).
Proof.
  destruct op; unfold perform; unfold_members; run_method;
    repeat case_match; simplify_eq; simpl;
    first
      [ exists []; rewrite app_nil_r; split; [done|]; split; [|done];
        intros s n Hin; by apply elem_of_nil in Hin
      | eexists; split; [reflexivity|]; split; [|done];
        intros s n Hin; apply elem_of_broadcast in Hin as [Hs ->]; done ].
Qed.

End calls_made.

(** ** The freeze count *)

Section freeze_count.

Context {U : Utils}.
Variable DEBUG : bool.

Lemma perform_keeps_frozen (op : Operation) (o : Object) :
  is_Freeze op = false -> is_UnFreeze op = false ->
  frozen (self (snd (perform DEBUG op o))) = frozen (self o).
Proof.
  intros H1 H2. destruct op; try discriminate H1; try discriminate H2;
    unfold perform; unfold_members; run_method; repeat case_match;
    by simplify_eq.
Qed.

Lemma frozen_after_Freeze (o : Object) :
  0 <= frozen (self o) < INT_MAX ->
  frozen (self (snd (perform DEBUG Call_Freeze o))) = frozen (self o) + 1.
Proof.
  intros Hn. unfold perform, Freeze, Value_get. run_method.
  rewrite int_wrap_id by (unfold INT_MIN, INT_MAX in *; lia).
  repeat case_match; by simplify_eq.
Qed.

Lemma frozen_after_UnFreeze (o : Object) :
  0 <= frozen (self o) <= INT_MAX ->
  frozen (self (snd (perform DEBUG Call_UnFreeze o))) =
  Z.max 0 (frozen (self o) - 1).
Proof.
  intros Hn. unfold perform, UnFreeze. run_method.
  destruct (Z.ltb_spec 0 (frozen (self o))); simpl; [|lia].
  rewrite int_wrap_id by (unfold INT_MIN, INT_MAX in *; lia).
  repeat case_match; simplify_eq; simpl; lia.
Qed.

(** X3. The freeze count of a variable never goes below zero, whatever
    is called on it and whether or not calls throw: from a count of [n] of
    at least 0, a sequence of member calls with [f] calls of [Freeze] and
    [u] calls of [UnFreeze] (n + f within [int]) leaves a count between
    [max 0 (n - u)] and [n + f]. *)
Theorem freeze_count_never_negative (ops : list Operation) (o : Object) :
  0 <= frozen (self o) ->
  frozen (self o) + Z.of_nat (count_requests is_Freeze ops) <= INT_MAX ->
  Z.max 0 (frozen (self o) - Z.of_nat (count_requests is_UnFreeze ops))
  <= frozen (self (perform_catching DEBUG ops o))
  <= frozen (self o) + Z.of_nat (count_requests is_Freeze ops).
Proof.
  revert o. induction ops as [|op ops IH]; intros o H0 Hmax.
  - simpl. unfold count_requests. simpl. lia.
  - simpl perform_catching. unfold count_requests in *. simpl in Hmax |- *.
    destruct (is_Freeze op) eqn:EF; [|destruct (is_UnFreeze op) eqn:EU].
    + assert (is_UnFreeze op = false) as -> by (by destruct op).
      destruct op; try discriminate EF. simpl length in *.
      pose proof (frozen_after_Freeze o ltac:(lia)) as E.
      specialize (IH (snd (perform DEBUG Call_Freeze o))).
      rewrite E in IH. lia.
    + destruct op; try discriminate EU. simpl length in *.
      pose proof (frozen_after_UnFreeze o ltac:(lia)) as E.
      specialize (IH (snd (perform DEBUG Call_UnFreeze o))).
      rewrite E in IH. lia.
    + pose proof (perform_keeps_frozen op o EF EU) as E.
      specialize (IH (snd (perform DEBUG op o))).
      rewrite E in IH. lia.
Qed.

End freeze_count.

Lemma freeze_count_never_negative_witness :
  0 <= frozen (self (perform_catching (H:=eps_Utils) true
                       [Call_UnFreeze; Call_Freeze; Call_UnFreeze; Call_UnFreeze]
                       (mkObject x_unassigned []))) <= 1.
Proof.
  apply (freeze_count_never_negative (U:=eps_Utils) true
           [Call_UnFreeze; Call_Freeze; Call_UnFreeze; Call_UnFreeze]
           (mkObject x_unassigned [])).
  - simpl. lia.
  - unfold INT_MAX, count_requests. simpl. lia.
Defined.

(** ** A Freeze that throws *)

(** X4. In a build with the debug check, the [Freeze] that throws on an
    unfrozen, unassigned variable has counted all the same: no solver has
    been called, yet [IsFrozen] answers true; once a solver has assigned the
    variable, another [Freeze] returns false and pins nothing; and the
    [UnFreeze] matching the failed call returns true and sends every
    attached solver the recorded bounds. *)
Theorem Freeze_that_throws_has_counted (o : Object) :
  frozen (self o) = 0 -> Assigned (base (self o)) = false ->
  snd (Freeze true o) = mkObject (with_frozen 1 (self o)) (calls o) /\
  IsFrozen (snd (Freeze true o)) = (inr true, snd (Freeze true o)) /\
  (forall (solver : Solver) (offset : Z) (v rc : double),
     let o2 := snd (Assign solver offset v rc (snd (Freeze true o))) in
     fst (Freeze true o2) = inr false /\
     calls (snd (Freeze true o2)) = calls o) /\
  UnFreeze (snd (Freeze true o)) =
  (inr true, mkObject (with_frozen 0 (self o)) (calls o ++ restore (self o))).
Proof.
  intros H0 HA. rewrite (Freeze_first_unreadable o H0 HA). cbn [snd].
  split; [done|]. split; [done|]. split.
  - intros solver offset v rc.
    rewrite (Freeze_again true (snd _)) by (unfold INT_MAX; simpl; lia).
    done.
  - by rewrite (UnFreeze_last (mkObject _ _)) by done.
Qed.

Lemma Freeze_that_throws_has_counted_witness :
  IsFrozen (snd (Freeze true (mkObject x_unassigned []))) =
  (inr true, mkObject (with_frozen 1 x_unassigned) []).
Proof.
  apply (Freeze_that_throws_has_counted (mkObject x_unassigned []));
    reflexivity.
Defined.

(** ** Assign and the reads of the solution *)

Section solution.

Context {U : Utils}.
Variable DEBUG : bool.

Lemma perform_keeps_assigned_true (op : Operation) (o : Object) :
  Assigned (base (self o)) = true ->
  Assigned (base (self (snd (perform DEBUG op o)))) = true.
Proof.
  intros HA. destruct (is_Assign op) eqn:E.
  - by destruct op.
  - by rewrite perform_keeps_Assigned.
Qed.

Lemma perform_catching_keeps_solution (ops : list Operation) (o : Object) :
  Forall (fun op => is_Assign op = false /\ is_Set_Value op = false) ops ->
  Assigned (base (self o)) = true ->
  let o' := perform_catching DEBUG ops o in
  Assigned (base (self o')) = true /\
  value (self o') = value (self o) /\
  reducedCost (self o') = reducedCost (self o).
Proof.
  intros Hops. revert o.
  induction Hops as [|op ops [H1 H2] _ IH]; intros o HA; [done|].
  simpl. destruct (IH (snd (perform DEBUG op o))) as (IA & IV & IR).
  - by apply perform_keeps_assigned_true.
  - split; [done|].
    by rewrite IV, IR, perform_keeps_value, perform_keeps_reducedCost.
Qed.

(** X5. What [Assign] stores can be read back: after
    [Assign(solver, offset, v, rc)], and then any sequence of member calls
    other than [Assign] and the [Value] setter, throwing or not, the [Value]
    getter returns [v] and does not throw, in a build with the debug check
    as in one without, and [ReducedCost] returns [rc]; neither read changes
    anything. *)
Theorem Assign_is_read_back (solver : Solver) (offset : Z) (v rc : double)
    (ops : list Operation) (o : Object) :
  Forall (fun op => is_Assign op = false /\ is_Set_Value op = false) ops ->
  let o' := perform_catching DEBUG ops (snd (Assign solver offset v rc o)) in
  Value_get DEBUG o' = (inr v, o') /\ ReducedCost_get o' = (inr rc, o').
Proof.
  intros Hops o'.
  destruct (perform_catching_keeps_solution ops
              (snd (Assign solver offset v rc o)) Hops eq_refl)
    as (HA & HV & HR).
  fold o' in HA, HV, HR. split.
  - rewrite Value_get_readable by (by right). by rewrite HV.
  - unfold ReducedCost_get, read. by rewrite HR.
Qed.

Lemma perform_debug_irrelevant (op : Operation) (o : Object) :
  Assigned (base (self o)) = true ->
  perform true op o = perform false op o.
Proof.
  intros HA. destruct op; try reflexivity.
  - unfold perform, Freeze. run_method. destruct (_ =? 1); [|done].
    rewrite (Value_get_readable true (mkObject _ _)) by (right; exact HA).
    reflexivity.
  - unfold perform. run_method.
    rewrite (Value_get_readable true o) by (right; exact HA).
    reflexivity.
Qed.

End solution.

Lemma Assign_is_read_back_witness :
  fst (Value_get true
         (perform_catching (H:=eps_Utils) true
            [Call_setUpper 5%float; Call_Freeze]
            (snd (Assign 1%nat 0 3%float 1%float (mkObject x_unassigned [])))))
  = inr 3%float.
Proof.
  destruct (Assign_is_read_back (U:=eps_Utils) true 1%nat 0 3%float 1%float
              [Call_setUpper 5%float; Call_Freeze] (mkObject x_unassigned []))
    as [E _].
  - repeat constructor.
  - by rewrite E.
Defined.

(** X6. The debug check is silent on an assigned variable: every sequence
    of member calls on a variable that a solver has assigned returns the
    same answers, throws the same, and leaves the same variable and the same
    calls on solvers, in a build with the check as in one without. *)
Theorem debug_build_agrees_on_assigned `{Utils} (ops : list Operation)
    (o : Object) :
  Assigned (base (self o)) = true ->
  perform_all true ops o = perform_all false ops o.
Proof.
  revert o. induction ops as [|op ops IH]; intros o HA; [done|].
  simpl. unfold mbind, M_bind, bind.
  rewrite (perform_debug_irrelevant op o HA).
  destruct (perform false op o) as [[e|a] o'] eqn:E; [done|].
  rewrite IH; [done|].
  replace o' with (snd (perform false op o)) by (by rewrite E).
  by apply perform_keeps_assigned_true.
Qed.

Lemma debug_build_agrees_on_assigned_witness :
  perform_all (H:=eps_Utils) true [Call_Freeze; Get_Value; Call_UnFreeze]
    (mkObject x_assigned []) =
  perform_all (H:=eps_Utils) false [Call_Freeze; Get_Value; Call_UnFreeze]
    (mkObject x_assigned []).
Proof.
  apply (debug_build_agrees_on_assigned (H:=eps_Utils)
           [Call_Freeze; Get_Value; Call_UnFreeze] (mkObject x_assigned [])).
  reflexivity.
Defined.

(** ** Setting and then getting *)

Section set_then_get.

Context {U : Utils}.

(** X7. Reading a property back after setting it. [Type] and [Name]
    always read back what was set. A bound reads back what was set only when
    the comparison saw a change: a value that [CompareToEps] takes for equal
    to the current bound is not stored, and [getUpper] (or the [Lower]
    getter) goes on returning the old bound. *)
Theorem set_then_get_reads_back (o : Object) :
  (forall v : double,
     (setUpper v ;; getUpper) o =
     (inr (if CompareToEps (upper (self o)) v =? 0 then upper (self o) else v),
      snd (setUpper v o))) /\
  (forall v : double,
     (Lower_set v ;; Lower_get) o =
     (inr (if CompareToEps (lower (self o)) v =? 0 then lower (self o) else v),
      snd (Lower_set v o))) /\
  (forall t : VariableType,
     (Type_set t ;; Type_get) o = (inr t, snd (Type_set t o))) /\
  (forall n : string,
     (Name_set n ;; Name_get) o = (inr n, snd (Name_set n o))).
Proof.
  split; [|split; [|split]].
  - intros v. unfold getUpper. run_method.
    destruct (Z.eqb_spec (CompareToEps (upper (self o)) v) 0) as [E|E].
    + by rewrite (setUpper_same o v E).
    + by rewrite (setUpper_changed o v E).
  - intros v. unfold Lower_get. run_method.
    destruct (Z.eqb_spec (CompareToEps (lower (self o)) v) 0) as [E|E].
    + by rewrite (Lower_set_same o v E).
    + by rewrite (Lower_set_changed o v E).
  - intros t. unfold Type_get. run_method.
    destruct (decide (type (self o) = t)) as [E|E].
    + rewrite (Type_set_same o t E). simpl. by rewrite E.
    + by rewrite (Type_set_changed o t E).
  - intros n. run_method.
    destruct (decide (Name (base (self o)) = n)) as [E|E].
    + rewrite (Name_set_same o n E). unfold Name_get, read. by rewrite E.
    + by rewrite (Name_set_changed o n E).
Qed.

End set_then_get.

(** ** A variable fresh from a constructor *)

Lemma default_name_inj (i j : Z) : default_name i = default_name j -> i = j.
Proof.
  unfold default_name, format_int. intros E.
  apply append_inj_l in E. by apply (inj pretty) in E.
Qed.

Lemma name_given_not_empty (name : string) (n : Z) :
  name_given name n <> "".
Proof.
  unfold name_given, is_empty. destruct (String.eqb_spec name ""); [|done].
  unfold default_name. discriminate.
Qed.

Section fresh_variable.

Context {U : Utils}.
Variable DEBUG : bool.

Lemma perform_without_solvers (op : Operation) (o : Object) :
  solvers (base (self o)) = [] ->
  calls (snd (perform DEBUG op o)) = calls o.
Proof.
  intros Hs. destruct op; unfold perform; unfold_members; run_method;
    repeat case_match; simplify_eq; simpl; rewrite ?Hs; simpl;
    by rewrite ?app_nil_r.
Qed.

(** X8. What each of the four constructors hands over: a variable with
    the bounds and type passed in (0 and [getInfinity] where the constructor
    takes no bounds), a name that is never empty, a freeze count of 0, no
    attached solver and no assignment; [value] and [reducedCost] are not
    initialised and hold what the storage held. So on a fresh variable
    [IsFrozen] is false, [UnFreeze] does nothing and returns false, and no
    member call reaches a solver. *)
Theorem constructor_postcondition (raw : SonnetVariable) (c : Construction)
    (n : Z) (cs : list Call) :
  exists x : SonnetVariable,
    construct raw c n = (inr x, int_wrap (n + 1)) /\
    match c with
    | ByType t | ByNameType _ t =>
        lower x = 0%float /\ upper x = getInfinity /\ type x = t
    | ByBounds lo up t | ByNameBounds _ lo up t =>
        lower x = lo /\ upper x = up /\ type x = t
    end /\
    Name (base x) <> "" /\
    value x = value raw /\ reducedCost x = reducedCost raw /\
    frozen x = 0 /\ solvers (base x) = [] /\ Assigned (base x) = false /\
    IsFrozen (mkObject x cs) = (inr false, mkObject x cs) /\
    UnFreeze (mkObject x cs) = (inr false, mkObject x cs) /\
    forall op : Operation,
      calls (snd (perform DEBUG op (mkObject x cs))) = cs.
Proof.
  rewrite construct_shared_routine, GutsOfConstructor_spec.
  eexists. split; [reflexivity|]. split; [by destruct c|].
  split; [apply name_given_not_empty|].
  do 7 (split; [reflexivity|]).
  intros op. by rewrite perform_without_solvers.
Qed.

End fresh_variable.

(** ** Names out of the constructors and the factories *)

Section distinct_names.

Context {U : Utils}.

(** X9. Default names do not clash with one another: in any sequence of
    constructions that keeps the counter within [int], two variables that
    were both constructed without a name (or with an empty one) have
    different names. *)
Theorem default_names_are_distinct
    (cs : list (SonnetVariable * Construction)) (n : Z)
    (xs : list SonnetVariable) (n' : Z) :
  0 <= n -> n + Z.of_nat (length cs) <= INT_MAX ->
  construct_all cs n = (inr xs, n') ->
  forall (i j : nat) (x y raw_x raw_y : SonnetVariable) (c d : Construction),
    i <> j ->
    cs !! i = Some (raw_x, c) -> cs !! j = Some (raw_y, d) ->
    xs !! i = Some x -> xs !! j = Some y ->
    supplied_name c = "" -> supplied_name d = "" ->
    Name (base x) <> Name (base y).
Proof.
  intros Hn Hmax E i j x y raw_x raw_y c d Hij Hc Hd Hx Hy Ec Ed.
  destruct (construct_all_spec cs n Hn Hmax) as (xs' & E' & _ & Hxs).
  rewrite E' in E. injection E as -> _.
  destruct (Hxs i x Hx) as (Hidx & rx & c' & Hc' & Hnx).
  destruct (Hxs j y Hy) as (Hidy & ry & d' & Hd' & Hny).
  rewrite Hc in Hc'. injection Hc' as <- <-.
  rewrite Hd in Hd'. injection Hd' as <- <-.
  rewrite Hnx, Hny, Ec, Ed. unfold name_given. simpl.
  intros Heq%default_name_inj. lia.
Qed.

Variable storage : Z -> SonnetVariable.

(** X10. [New(n, varname, ...)] for a negative [n] throws from the array
    allocation, constructs nothing and leaves the counter alone. For
    0 <= n it returns [n] variables whose names are pairwise different, be
    they built from [varname] and the index or from the counter. *)
Theorem New_names_are_distinct (n : Z) (varname : string) (lo up : double)
    (t : VariableType) (c : Z) :
  0 <= c ->
  (n < 0 -> New storage n varname lo up t c = (inl bad_array_new_length, c)) /\
  (0 <= n -> c + n <= INT_MAX ->
   exists xs : list SonnetVariable,
     New storage n varname lo up t c = (inr xs, c + n) /\
     length xs = Z.to_nat n /\
     forall (i j : nat) (x y : SonnetVariable),
       xs !! i = Some x -> xs !! j = Some y -> i <> j ->
       Name (base x) <> Name (base y)).
Proof.
  intros Hc. unfold New. split.
  - intros Hn. by destruct (Z.ltb_spec n 0); [|lia].
  - intros Hn Hmax. destruct (Z.ltb_spec n 0) as [?|_]; [lia|].
    destruct (New_loop_spec storage varname lo up t (Z.to_nat n) 0 c)
      as (xs & E & Hlen & Hxs); [unfold INT_MAX in *; lia..|].
    exists xs. rewrite E. split; [f_equal; lia|]. split; [done|].
    intros i j x y Hx Hy Hij.
    rewrite (Hxs i x Hx), (Hxs j y Hy), !made_factory_name.
    destruct (is_empty varname).
    + intros Heq%default_name_inj. lia.
    + intros Heq%indexed_name_inj. lia.
Qed.

End distinct_names.

Lemma default_names_are_distinct_witness :
  exists x y : SonnetVariable,
    construct_all (H:=eps_Utils)
      [(zeroed, ByType Integer); (zeroed, ByBounds 0%float 1%float Continuous)]
      numberOfVariables_initial = (inr [x; y], 2) /\
    Name (base x) <> Name (base y).
Proof.
  eexists _, _. split; [reflexivity|].
  apply (default_names_are_distinct (U:=eps_Utils)
           [(zeroed, ByType Integer);
            (zeroed, ByBounds 0%float 1%float Continuous)]
           numberOfVariables_initial _ 2
           ltac:(unfold numberOfVariables_initial; lia)
           ltac:(unfold numberOfVariables_initial, INT_MAX; simpl; lia)
           eq_refl 0%nat 1%nat _ _ zeroed zeroed (ByType Integer)
           (ByBounds 0%float 1%float Continuous));
    done.
Defined.

Lemma New_names_are_distinct_witness :
  exists xs : list SonnetVariable,
    New (fun _ => zeroed) 3 "x" 0%float 1%float Continuous 0 = (inr xs, 3) /\
    length xs = 3%nat.
Proof.
  destruct (New_names_are_distinct (fun _ => zeroed) 3 "x" 0%float 1%float
              Continuous 0) as [_ H]; [lia|].
  destruct H as (xs & E & Hlen & _); [lia|unfold INT_MAX; lia|].
  exists xs. split; [exact E|exact Hlen].
Defined.

(** ** The map of the enum factory *)

Section keyed_maps.

Variable storage : Z -> SonnetVariable.
Context {T : Type} `{Countable T}.

Lemma keyed_loop_dom (key_int : nat -> T -> Z) (varname : string)
    (lo up : double) (t : VariableType) (rest : list T) (pos : nat)
    (tmp : gmap T SonnetVariable) (n : Z) :
  dom (keyed_loop storage key_int pos rest varname lo up t tmp n) =
  list_to_set rest ∪ dom tmp.
Proof.
  revert pos tmp n. induction rest as [|elem rest IH]; intros pos tmp n.
  - simpl. by rewrite (left_id_L ∅ (∪)).
  - simpl. rewrite IH, dom_insert_L.
    by rewrite (assoc_L (∪)), (comm_L (∪) (list_to_set rest)).
Qed.

(** X12. The enum overload: when [T] is not an enumerated type it throws
    ArgumentException before constructing anything, and the counter is as
    it was; when it is, the map has the enum values as its keys, and each
    value is mapped to a variable named [varname_] followed by the value's
    integer, or "Var_" followed by the variable's id when [varname] is
    empty. *)
Theorem New_enum_maps_enum_values (IsEnum : bool) (GetValues : list T)
    (enum_int : T -> Z) (varname : string) (lo up : double)
    (t : VariableType) (c : Z) :
  0 <= c -> c + Z.of_nat (length GetValues) <= INT_MAX ->
  if IsEnum then
    exists m : gmap T SonnetVariable,
      New_enum storage IsEnum GetValues enum_int varname lo up t c =
      (inr m, c + Z.of_nat (length GetValues)) /\
      dom m = list_to_set GetValues /\
      forall i : T,
        i ∈ GetValues ->
        exists x : SonnetVariable,
          m !! i = Some x /\
          Name (base x) =
          if is_empty varname then "Var_" +:+ format_int (id x)
          else varname +:+ "_" +:+ format_int (enum_int i)
  else
    New_enum storage IsEnum GetValues enum_int varname lo up t c =
    (inl (ArgumentException "T must be an enumerated type"), c).
Proof.
  intros Hc Hmax. destruct IsEnum; [|reflexivity].
  eexists. unfold New_enum. simpl.
  split; [by apply New_enum_loop_keyed|]. split.
  - by rewrite keyed_loop_dom, dom_empty_L, (right_id_L ∅ (∪)).
  - intros i Hin. destruct (last_occurrence GetValues i Hin) as (j & Hj & Hlast).
    eexists. split; [by apply keyed_loop_lookup|].
    by rewrite made_factory_name.
Qed.

End keyed_maps.

Lemma New_enum_maps_enum_values_witness :
  exists m : gmap bool SonnetVariable,
    New_enum (fun _ => zeroed) true [false; true]
      (fun b : bool => if b then 1 else 0) "x" 0%float 1%float Continuous 0 =
    (inr m, 2) /\
    dom m = list_to_set [false; true].
Proof.
  destruct (New_enum_maps_enum_values (fun _ => zeroed) true [false; true]
              (fun b : bool => if b then 1 else 0) "x" 0%float 1%float
              Continuous 0 ltac:(lia) ltac:(simpl; unfold INT_MAX; lia))
    as (m & E & Hdom & _).
  exists m. split; [exact E|exact Hdom].
Defined.

(** ** The variable and its solvers in step *)

Lemma told_app_broadcast {A} (pick : Notification -> option A) (s : Solver)
    (cs : list Call) (ss : list Solver) (n : Notification) :
  NoDup ss -> s ∈ ss ->
  told pick s (cs ++ broadcast ss n) =
  match pick n with Some a => Some a | None => told pick s cs end.
Proof.
  intros Hnd Hs. unfold told.
  rewrite received_app, received_broadcast_once, omap_app by done.
  csimpl. destruct (pick n) as [a|].
  - apply last_snoc.
  - by rewrite app_nil_r.
Qed.

Ltac sync_step Hsync :=
  let s := fresh "s" in
  let Hs := fresh "Hs" in
  intros s Hs; simpl in Hs; destruct (Hsync s Hs) as (? & ? & ? & ?); simpl;
  rewrite ?told_app_broadcast by done; simpl;
  rewrite ?bool_decide_eq_true_2 by done; simpl; done.

Section in_step.

Context {U : Utils}.
Variable DEBUG : bool.

Lemma perform_keeps_solvers (op : Operation) (o : Object) :
  solvers (base (self (snd (perform DEBUG op o)))) = solvers (base (self o)).
Proof.
  destruct op; unfold perform; unfold_members; run_method;
    repeat case_match; by simplify_eq.
Qed.

Lemma in_sync_perform (op : Operation) (o : Object) :
  NoDup (solvers (base (self o))) ->
  is_Freeze op = false ->
  in_sync o -> in_sync (snd (perform DEBUG op o)).
Proof.
  intros Hnd Hop Hsync. destruct op; try discriminate Hop;
    unfold perform; unfold_members; run_method;
    repeat case_match; simplify_eq; simpl; sync_step Hsync.
Qed.

(** X13. The variable and its solvers stay in step as long as nothing is
    frozen anew: if the latest upper bound, lower bound, type and name that
    each attached solver has been told are the ones the variable records,
    this is still so after any sequence of member calls without a [Freeze],
    throwing or not. The attached solvers are a set. *)
Theorem solvers_stay_in_sync (ops : list Operation) (o : Object) :
  NoDup (solvers (base (self o))) ->
  Forall (fun op => is_Freeze op = false) ops ->
  in_sync o -> in_sync (perform_catching DEBUG ops o).
Proof.
  intros Hnd Hops. revert o Hnd.
  induction Hops as [|op ops Hop _ IH]; intros o Hnd Hsync; [done|].
  simpl. apply IH.
  - by rewrite perform_keeps_solvers.
  - by apply in_sync_perform.
Qed.

(** X14. The [UnFreeze] that brings the count from 1 to 0 puts the bounds
    back in step whatever the solvers were told before: afterwards the
    latest upper and lower bound every attached solver has been told are the
    ones the variable records. *)
Theorem last_UnFreeze_syncs_bounds (o : Object) (s : Solver) :
  frozen (self o) = 1 ->
  NoDup (solvers (base (self o))) ->
  s ∈ solvers (base (self o)) ->
  told (upper_of (id (self o))) s (calls (snd (UnFreeze o))) =
    Some (upper (self o)) /\
  told (lower_of (id (self o))) s (calls (snd (UnFreeze o))) =
    Some (lower (self o)).
Proof.
  intros H1 Hnd Hs. rewrite (UnFreeze_last o H1). unfold restore. simpl.
  rewrite !told_app_broadcast by done. simpl.
  by rewrite bool_decide_eq_true_2.
Qed.

(** X15. A frozen variable falls out of step, and a bound set while it
    is frozen undoes half of the pin. After the first [Freeze] of a variable
    whose value can be read, both bounds every attached solver has been told
    are the value. After a [setUpper] with a changed bound on the frozen
    variable, the solver's upper bound is the new bound while its lower
    bound is still the value, and [IsFrozen] still answers true. *)
Theorem setUpper_while_frozen_half_unpins (o : Object) (v : double)
    (s : Solver) :
  frozen (self o) = 0 -> readable DEBUG (self o) ->
  NoDup (solvers (base (self o))) ->
  s ∈ solvers (base (self o)) ->
  CompareToEps (upper (self o)) v <> 0 ->
  let o1 := perform_catching DEBUG [Call_Freeze] o in
  let o2 := perform_catching DEBUG [Call_Freeze; Call_setUpper v] o in
  (told (upper_of (id (self o))) s (calls o1) = Some (value (self o)) /\
   told (lower_of (id (self o))) s (calls o1) = Some (value (self o))) /\
  (told (upper_of (id (self o))) s (calls o2) = Some v /\
   told (lower_of (id (self o))) s (calls o2) = Some (value (self o)) /\
   upper (self o2) = v /\ lower (self o2) = lower (self o) /\
   IsFrozen o2 = (inr true, o2)).
Proof.
  intros H0 Hr Hnd Hs Hne o1 o2.
  assert (o1 = mkObject (with_frozen 1 (self o)) (calls o ++ pin (self o)))
    as E1.
  { unfold o1. simpl. by rewrite (perform_Freeze DEBUG _ _ _ (Freeze_first DEBUG o H0 Hr)). }
  assert (o2 = mkObject (with_upper v (with_frozen 1 (self o)))
                 ((calls o ++ pin (self o)) ++
                  broadcast (solvers (base (self o)))
                    (SetVariableUpper (id (self o)) v))) as E2.
  { unfold o2. change (perform_catching DEBUG [Call_Freeze; Call_setUpper v] o)
      with (snd (perform DEBUG (Call_setUpper v) o1)).
    rewrite E1. unfold perform. run_method.
    by rewrite (setUpper_changed (mkObject _ _)) by done. }
  rewrite E1, E2. unfold pin. simpl.
  rewrite !told_app_broadcast by done. simpl.
  by rewrite bool_decide_eq_true_2.
Qed.

End in_step.

Lemma solvers_stay_in_sync_witness :
  in_sync
    (perform_catching (H:=eps_Utils) true
       [Call_setUpper 5%float; Set_Lower 1%float; Set_Type Integer;
        Call_UnFreeze; Get_Value]
       (mkObject x_assigned [])).
Proof.
  apply (solvers_stay_in_sync (U:=eps_Utils) true
           [Call_setUpper 5%float; Set_Lower 1%float; Set_Type Integer;
            Call_UnFreeze; Get_Value]
           (mkObject x_assigned [])).
  - simpl. solve_NoDup.
  - repeat constructor.
  - intros s Hs. repeat split.
Defined.

Lemma last_UnFreeze_syncs_bounds_witness :
  told (upper_of 0) 1%nat
    (calls (snd (UnFreeze
                   (mkObject (with_frozen 1 x_assigned) (pin x_assigned))))) =
  Some 10%float.
Proof.
  apply (last_UnFreeze_syncs_bounds
           (mkObject (with_frozen 1 x_assigned) (pin x_assigned)) 1%nat).
  - reflexivity.
  - simpl. solve_NoDup.
  - simpl. rewrite !elem_of_cons. by left.
Defined.

Lemma setUpper_while_frozen_half_unpins_witness :
  told (upper_of 0) 2%nat
    (calls (perform_catching (H:=eps_Utils) true
              [Call_Freeze; Call_setUpper 5%float] (mkObject x_assigned []))) =
    Some 5%float /\
  told (lower_of 0) 2%nat
    (calls (perform_catching (H:=eps_Utils) true
              [Call_Freeze; Call_setUpper 5%float] (mkObject x_assigned []))) =
    Some 3%float.
Proof.
  destruct (setUpper_while_frozen_half_unpins (U:=eps_Utils) true
              (mkObject x_assigned []) 5%float 2%nat)
    as (_ & Hu & Hl & _).
  - reflexivity.
  - by right.
  - simpl. solve_NoDup.
  - simpl. rewrite !elem_of_cons. right. by left.
  - vm_compute. discriminate.
  - split; [exact Hu|exact Hl].
Defined.

(** ** Setting the value by hand *)

Section value_by_hand.

Context {U : Utils}.

(** X16. A value written through the [Value] setter is what [IsFeasible]
    then judges and, where the value can be read, what the getter returns;
    but writing it does not assign the variable: in a build with the debug
    check the getter still throws on a variable no solver has assigned,
    though the value is stored. No solver is called. *)
Theorem Value_setter_stores_but_does_not_assign (DEBUG : bool) (o : Object)
    (v : double) :
  let o' := mkObject (with_value v (self o)) (calls o) in
  Value_set v o = (inr tt, o') /\
  (readable DEBUG (self o) ->
   (Value_set v ;; Value_get DEBUG) o = (inr v, o')) /\
  (Assigned (base (self o)) = false ->
   (Value_set v ;; Value_get true) o =
   (inl (SonnetException "Variable has no assigned model!"), o')) /\
  (Value_set v ;; IsFeasible) o =
  (inr (IsBetween v (lower (self o)) (upper (self o)) &&
        (if decide (type (self o) = Integer) then IsInteger v else true)),
   o').
Proof.
  intros o'. split; [done|]. split; [|split].
  - intros Hr. run_method. unfold Value_set, write.
    by rewrite (Value_get_readable DEBUG (mkObject _ _)).
  - intros HA. run_method. unfold Value_set, write.
    by rewrite (Value_get_unassigned (mkObject _ _)).
  - run_method. unfold Value_set, write.
    by rewrite (IsFeasible_spec (mkObject _ _)).
Qed.

End value_by_hand.
